(** * Portfolio optimizer: weighting and discrete share allocation

    A shallow embedding of [StockAnalyzer] (src/code/utils_pkg/utils.py),
    of [ReportGenerator] (src/code/utils_pkg/report_generator.py) and of
    [MainTool.main] (src/code/main.py).

    Conventions of the embedding.
    - A pandas DataFrame is a list of rows; the row order is the frame order
      and the index label of a stock row is its ticker.  The index of a
      stock frame is unique: [get_sp_500_info] builds it from the keys of a
      dict.  The label-directed operations ([isin], the index-aligned
      column assignment) are embedded for such frames, and the statements
      about [allocate_funds] carry the assumption as [NoDup].
    - A finite float64 is a rational, and a float64 column is a list of
      [Q]; a column that a frame may or may not carry ([shares],
      [sector_wieghts] of the metrics frame) is an [option]: [None] is "no
      value in this cell".  Comparisons, sorting and selection are exact in
      float64 and are embedded as they are.  The arithmetic is read in
      three ways.  With the exact operations of [Q], for the statements
      that do not depend on how a result is rounded; division on [Q] is
      total and returns 0 on a zero divisor, and those statements assume
      the divisors they need to be non-zero.  Over an abstract arithmetic
      ([Arith]) for the normalising lines 49-50 and 153, which is
      instantiated at [Q], at binary64 ([SpecFloat]) and at any rounding
      of the rationals whose relative error is that of binary64.  And in
      binary64 itself for [allocate_funds] ([Binary64.allocate_funds]),
      whose floor and running residue depend on the rounding.
    - The sorts of the embedding keep rows with equal keys in frame
      order; pandas leaves the order of equal keys open.
    - A Python function that mutates an argument returns, next to its
      result, the final contents of that argument.
    - The [while True] loop takes fuel; running out of fuel is [None]. *)

From Stdlib Require Import QArith Qround Qabs Lqa Lia ZArith List String Bool.
From Stdlib Require Import Permutation Sorted.
From Stdlib Require Import Floats.SpecFloat.
Import ListNotations.
Open Scope string_scope.
Open Scope list_scope.
Open Scope Q_scope.

(** ** Data model *)

(** One record of the security universe (a row of [stock_data_df]); the
    column '52WeekChange' is [week52Change]. *)
Record security := mk_security {
  ticker : string;
  sector : string;
  industry : string;
  website : string;
  regularMarketPrice : Q;
  marketCap : Q;
  trailingPE : Q;
  dividendYield : Q;
  week52Change : Q;
  beta : Q;
  profitMargins : Q
}.

(** A row of the frame returned by [extract_stock_wieght]. *)
Record stock_row := mk_stock_row {
  s_stock : security;
  stock_wieght : Q
}.

(** A row of [merged_df], the frame handed to [allocate_funds]. *)
Record merged_row := mk_merged_row {
  m_stock : security;
  m_stock_wieght : Q;
  sector_wieghts : Q;
  final_wieght : Q;
  shares : option Z
}.

(** A row of the frame [allocate_funds] returns. *)
Record alloc_row := mk_alloc_row {
  ticker_symbol : string;
  a_industry : string;
  a_sector : string;
  a_website : string;
  a_shares : option Z;
  a_price : Q
}.

(** A row of a metrics frame ([extract_metrics]); [group_key] is the value
    of the grouping column. *)
Record metrics_row := mk_metrics_row {
  group_key : string;
  total_market_cap : Q;
  avg_pe : Q;
  avg_dividend_yield : Q;
  avg_1y_return : Q;
  avg_beta : Q;
  mr_sector : option string;
  mr_sector_wieghts : option Q
}.

Definition label (r : merged_row) : string := ticker (m_stock r).
Definition price (r : merged_row) : Q := regularMarketPrice (m_stock r).

Definition set_shares (s : option Z) (r : merged_row) : merged_row :=
  {| m_stock := m_stock r; m_stock_wieght := m_stock_wieght r;
     sector_wieghts := sector_wieghts r; final_wieght := final_wieght r;
     shares := s |}.

(** ** Series and frame primitives *)

Definition Qltb (x y : Q) : bool := negb (Qle_bool y x).

(** [Series.sum] over exact values. *)
Definition Qsum (l : list Q) : Q := fold_right Qplus 0 l.

(** [Series.cumsum]. *)
Fixpoint cumsum (acc : Q) (l : list Q) : list Q :=
  match l with
  | [] => []
  | x :: l' => (acc + x) :: cumsum (acc + x) l'
  end.

(** [sort_values(key, ascending=False)]: rows with equal keys keep their
    relative order. *)
Fixpoint insert_desc {A : Type} (key : A -> Q) (x : A) (l : list A) : list A :=
  match l with
  | [] => [x]
  | y :: l' => if Qle_bool (key y) (key x) then x :: l
               else y :: insert_desc key x l'
  end.

Definition sort_values_desc {A : Type} (key : A -> Q) (l : list A) : list A :=
  fold_right (insert_desc key) [] l.

(** [index.isin(other.index)]. *)
Definition isin (lbl : string) (idx : list string) : bool :=
  existsb (String.eqb lbl) idx.

(** Value of a label-indexed Series at a label. *)
Fixpoint series_at (lbl : string) (s : list (string * Z)) : option Z :=
  match s with
  | [] => None
  | (k, v) :: s' => if String.eqb lbl k then Some v else series_at lbl s'
  end.

(** ** allocate_funds

    The exact reading: the quotient of line 102 and the residue of lines
    106 and 122 are not rounded.  The float64 reading of the same lines is
    [Binary64.allocate_funds]. *)

(** [np.floor((total_amount * df[weight_col]) / df[price_col])], one cell. *)
Definition floor_shares (total_amount : Q) (r : merged_row) : Z :=
  Qfloor ((total_amount * final_wieght r) / price r).

(** [(df['shares'] * df[price_col]).sum()]; cells without a value are
    skipped. *)
Definition cell_cost (r : merged_row) : Q :=
  match shares r with
  | Some s => inject_Z s * price r
  | None => 0
  end.

Definition spent (df : list merged_row) : Q := Qsum (map cell_cost df).

(** [df[df[price_col] < residue]] *)
Definition affordable (residue : Q) (df : list merged_row) : list merged_row :=
  filter (fun r => Qltb (price r) residue) df.

(** [df_res['c_price'] = cumsum; df_res = df_res[df_res['c_price'] < residue]] *)
Definition within_residue (residue : Q) (df_res : list merged_row)
  : list merged_row :=
  map fst (filter (fun rc => Qltb (snd rc) residue)
                  (combine df_res (cumsum 0 (map price df_res)))).

(** [df_orig.loc[df_orig.index.isin(df_res.index), 'shares'] += 1] *)
Definition bump (df_res df_orig : list merged_row) : list merged_row :=
  map (fun r => if isin (label r) (map label df_res)
                then set_shares (option_map Z.succ (shares r)) r
                else r) df_orig.

(** One pass of the [while True] body; [None] is the [break]. *)
Definition redistribute_pass (df df_orig : list merged_row) (residue : Q)
  : option (list merged_row * Q) :=
  match affordable residue df with
  | [] => None
  | df_res =>
      let df_res := within_residue residue df_res in
      Some (bump df_res df_orig, residue - Qsum (map price df_res))
  end.

(** The loop; the third component counts the passes that did not break. *)
Fixpoint redistribute (fuel : nat) (df df_orig : list merged_row)
  (residue : Q) (passes : nat) : option (list merged_row * Q * nat) :=
  match fuel with
  | O => None
  | S fuel' =>
      match redistribute_pass df df_orig residue with
      | None => Some (df_orig, residue, passes)
      | Some (df_orig', residue') =>
          redistribute fuel' df df_orig' residue' (S passes)
      end
  end.

(** Lines 97-106: the priority copy [df], [df_orig] with its new [shares]
    column, and the residue. *)
Definition phase1 (df_orig : list merged_row) (total_amount : Q)
  : list merged_row * list merged_row * Q :=
  let df := sort_values_desc final_wieght df_orig in
  let ser := map (fun r => (label r, floor_shares total_amount r)) df in
  let df := map (fun r => set_shares (Some (floor_shares total_amount r)) r) df in
  let df_orig := map (fun r => set_shares (series_at (label r) ser) r) df_orig in
  (df, df_orig, total_amount - spent df).

(** [df_orig[['industry','sector','website','shares',price_col]]
      .reset_index(names='ticker_symbol')] *)
Definition project (r : merged_row) : alloc_row :=
  {| ticker_symbol := label r;
     a_industry := industry (m_stock r);
     a_sector := sector (m_stock r);
     a_website := website (m_stock r);
     a_shares := shares r;
     a_price := price r |}.

(** [allocate_funds] with its default column names: the returned frame and
    the final contents of the caller's [df_orig]. *)
Definition allocate_funds (fuel : nat) (df_orig : list merged_row)
  (total_amount : Q) : option (list alloc_row * list merged_row) :=
  let '(df, df_orig, residue) := phase1 df_orig total_amount in
  match redistribute fuel df df_orig residue 0 with
  | Some (df_orig, _, _) => Some (map project df_orig, df_orig)
  | None => None
  end.

(** Cash committed by a returned allocation. *)
Definition row_cost (r : alloc_row) : Q :=
  match a_shares r with
  | Some s => inject_Z s * a_price r
  | None => 0
  end.

Definition total_cost (res : list alloc_row) : Q := Qsum (map row_cost res).

(** ** The normalising lines (portfolio_optimization, lines 49-50, and
       extract_stock_wieght, line 153)

    These lines are arithmetic on a float64 Series.  They are written
    over an abstract arithmetic so that the same definition is read with
    exact rationals, with IEEE-754 binary64 and with a rounding of the
    rationals. *)

Class Arith (F : Type) := {
  f_one : F;
  f_zero : F;
  f_add : F -> F -> F;
  f_div : F -> F -> F;
  f_isnan : F -> bool
}.

Section SectorWeights.
Context {F : Type} `{Arith F}.

(** [Series.sum()], which skips NaN cells. *)
Definition series_sum (l : list F) : F :=
  fold_left (fun acc x => if f_isnan x then acc else f_add acc x) l f_zero.

(** [inverse_beta = 1/metrics_df_global['avg_beta']] *)
Definition inverse_beta (avg_betas : list F) : list F :=
  map (fun b => f_div f_one b) avg_betas.

(** [inverse_beta/inverse_beta.sum()] *)
Definition sector_wieghts_col (avg_betas : list F) : list F :=
  let inverse_beta := inverse_beta avg_betas in
  let total := series_sum inverse_beta in
  map (fun x => f_div x total) inverse_beta.

(** [sector_group['profitMargins']/sector_group['profitMargins'].sum()] *)
Definition stock_wieght_col (margins : list F) : list F :=
  let total := series_sum margins in
  map (fun m => f_div m total) margins.
End SectorWeights.

#[export] Instance Q_arith : Arith Q := {|
  f_one := 1; f_zero := 0; f_add := Qplus; f_div := Qdiv;
  f_isnan := fun _ => false
|}.

(** Arithmetic that rounds: every result is the image under [rnd] of the
    exact result, as IEEE-754 prescribes for finite results. *)
Definition rounded_arith (rnd : Q -> Q) : Arith Q := {|
  f_one := 1; f_zero := 0;
  f_add := fun x y => rnd (x + y);
  f_div := fun x y => rnd (x / y);
  f_isnan := fun _ => false
|}.

(** The unit roundoff of binary64, 2^-53, its smallest positive normal
    number, 2^-1022, and its largest power of two, 2^1023. *)
Definition unit_roundoff : Q := 1 # 9007199254740992.
Definition smallest_normal : Q := Eval vm_compute in 1 # (2 ^ 1022).
Definition largest_power : Q := Eval vm_compute in inject_Z (2 ^ 1023).

(** What rounding to nearest guarantees in the normal range of binary64:
    a relative error of at most the unit roundoff. *)
Definition rounds_to_nearest (rnd : Q -> Q) : Prop :=
  forall x, smallest_normal <= x <= largest_power ->
            (1 - unit_roundoff) * x <= rnd x <= (1 + unit_roundoff) * x.

(** The tolerance of the spec, 1e-9, and the magnitudes between which no
    intermediate result of a normalising line leaves the normal range. *)
Definition tolerance : Q := 1 # 1000000000.
Definition magnitude_lo : Q := Eval vm_compute in 1 # (2 ^ 300).
Definition magnitude_hi : Q := Eval vm_compute in inject_Z (2 ^ 300).

Definition Qnat (k : nat) : Q := inject_Z (Z.of_nat k).

(** [Series.sum()] and a normalising line in the arithmetic that rounds
    with [rnd]. *)
Definition rounded_sum (rnd : Q -> Q) (l : list Q) : Q :=
  @series_sum Q (rounded_arith rnd) l.

Definition normalise (rnd : Q -> Q) (values : list Q) : list Q :=
  @stock_wieght_col Q (rounded_arith rnd) values.

(** Values between [a] and [b], at most a million of them, for which the
    sum, the quotients and the sum of the quotients stay in the normal
    range. *)
Definition well_scaled (a b : Q) (values : list Q) : Prop :=
  0 < a /\
  Forall (fun x => a <= x <= b) values /\
  values <> [] /\
  Qnat (List.length values) <= 1000000 /\
  smallest_normal <= a /\
  smallest_normal * (4 * Qnat (List.length values) * b) <= a /\
  2 * Qnat (List.length values) * b <= largest_power.

(** binary64, the dtype of the [avg_beta] column. *)
Module Binary64.
Definition prec : Z := 53.
Definition emax : Z := 1024.
Definition is_nan (x : spec_float) : bool :=
  match x with S754_nan => true | _ => false end.
Definition is_zero (x : spec_float) : bool :=
  match x with S754_zero _ => true | _ => false end.

#[export] Instance arith : Arith spec_float := {|
  f_one := SFone prec emax;
  f_zero := S754_zero false;
  f_add := SFadd prec emax;
  f_div := SFdiv prec emax;
  f_isnan := is_nan
|}.

(** What a Python statement does: it returns or it raises. *)
Inductive exn := ZeroDivisionError.
Inductive outcome (A : Type) := Returned (a : A) | Raised (e : exn).
Arguments Returned {A} a.
Arguments Raised {A} e.

(** Lines 49-50 on a float64 column.  Series division follows IEEE-754:
    it yields an infinity or a NaN where the divisor is zero and never
    raises. *)
Definition sector_wieghts (avg_betas : list spec_float)
  : outcome (list spec_float) :=
  Returned (sector_wieghts_col avg_betas).

(** [Series.sum()] of a float64 column. *)
Definition column_sum (l : list spec_float) : spec_float := series_sum l.

(** Line 153 on a float64 column. *)
Definition stock_wieghts (margins : list spec_float) : list spec_float :=
  stock_wieght_col margins.

(** The float64 value of a positive integer literal. *)
Definition of_pos (m : positive) : spec_float := binary_round prec emax false m 0.

(** The float64 value of the decimal literal [n/d], for [n] and [d] below
    2^53: the correctly rounded quotient. *)
Definition of_ratio (n d : positive) : spec_float :=
  SFdiv prec emax (of_pos n) (of_pos d).

Definition one : spec_float := SFone prec emax.

(** The rational a finite float64 stands for. *)
Definition to_Q (x : spec_float) : Q :=
  match x with
  | S754_finite s m e => inject_Z (cond_Zopp s (Zpos m)) * (2 ^ e)%Q
  | _ => 0%Q
  end.

(** [np.floor]: an integral value, an infinity, a zero and NaN are
    returned as they are. *)
Definition floor (x : spec_float) : spec_float :=
  match x with
  | S754_finite s m e =>
      if (0 <=? e)%Z then x
      else binary_normalize prec emax
             (Z.div (cond_Zopp s (Zpos m)) (2 ^ (- e))) 0 s
  | _ => x
  end.

(** *** allocate_funds on float64 columns

    A row of [df_orig] with the columns [allocate_funds] computes with:
    the index label, the price, the final weight and, once line 102 has
    written it, the share count, which [np.floor] leaves a float64.  The
    labels of a frame are taken to be distinct. *)
Record row := mk_row {
  label : string;
  price : spec_float;
  final_wieght : spec_float;
  shares : option spec_float
}.

Definition set_shares (s : option spec_float) (r : row) : row :=
  {| label := label r; price := price r; final_wieght := final_wieght r;
     shares := s |}.

(** [sort_values('final_wieght', ascending=False)]; NaN keys go last. *)
Fixpoint insert_desc (x : row) (l : list row) : list row :=
  match l with
  | [] => [x]
  | y :: l' =>
      if is_nan (final_wieght y) || SFleb (final_wieght y) (final_wieght x)
      then x :: l
      else y :: insert_desc x l'
  end.

Definition sort_values_desc (l : list row) : list row :=
  fold_right insert_desc [] l.

(** [np.floor((total_amount * df[weight_col]) / df[price_col])], one cell. *)
Definition floor_shares (total_amount : spec_float) (r : row) : spec_float :=
  floor (SFdiv prec emax (SFmul prec emax total_amount (final_wieght r))
                         (price r)).

(** A cell of [df['shares'] * df[price_col]]. *)
Definition cell_cost (r : row) : spec_float :=
  match shares r with
  | Some s => SFmul prec emax s (price r)
  | None => S754_nan
  end.

(** [df[df[price_col] < residue]] *)
Definition affordable (residue : spec_float) (df : list row) : list row :=
  filter (fun r => SFltb (price r) residue) df.

(** [Series.cumsum]: the first cell is the first value itself. *)
Fixpoint cumsum_from (acc : spec_float) (l : list spec_float)
  : list spec_float :=
  match l with
  | [] => []
  | x :: l' => SFadd prec emax acc x :: cumsum_from (SFadd prec emax acc x) l'
  end.

Definition cumsum (l : list spec_float) : list spec_float :=
  match l with
  | [] => []
  | x :: l' => x :: cumsum_from x l'
  end.

(** [df_res['c_price'] = cumsum; df_res = df_res[df_res['c_price'] < residue]] *)
Definition within_residue (residue : spec_float) (df_res : list row)
  : list row :=
  map fst (filter (fun rc => SFltb (snd rc) residue)
                  (combine df_res (cumsum (map price df_res)))).

(** [df_orig.loc[df_orig.index.isin(df_res.index), 'shares'] += 1] *)
Definition bump (df_res df_orig : list row) : list row :=
  map (fun r => if isin (label r) (map label df_res)
                then set_shares
                       (option_map (fun s => SFadd prec emax s one) (shares r)) r
                else r) df_orig.

(** One pass of the [while True] body; [None] is the [break]. *)
Definition redistribute_pass (df df_orig : list row) (residue : spec_float)
  : option (list row * spec_float) :=
  match affordable residue df with
  | [] => None
  | df_res =>
      let df_res := within_residue residue df_res in
      Some (bump df_res df_orig,
            SFsub prec emax residue (column_sum (map price df_res)))
  end.

(** The loop; the third component counts the passes that did not break. *)
Fixpoint redistribute (fuel : nat) (df df_orig : list row)
  (residue : spec_float) (passes : nat)
  : option (list row * spec_float * nat) :=
  match fuel with
  | O => None
  | S fuel' =>
      match redistribute_pass df df_orig residue with
      | None => Some (df_orig, residue, passes)
      | Some (df_orig', residue') =>
          redistribute fuel' df df_orig' residue' (S passes)
      end
  end.

Fixpoint series_at (lbl : string) (s : list (string * spec_float))
  : option spec_float :=
  match s with
  | [] => None
  | (k, v) :: s' => if String.eqb lbl k then Some v else series_at lbl s'
  end.

(** Lines 97-106: the priority copy [df], [df_orig] with its new [shares]
    column, and the residue. *)
Definition phase1 (df_orig : list row) (total_amount : spec_float)
  : list row * list row * spec_float :=
  let df := sort_values_desc df_orig in
  let ser := map (fun r => (label r, floor_shares total_amount r)) df in
  let df := map (fun r => set_shares (Some (floor_shares total_amount r)) r) df in
  let df_orig := map (fun r => set_shares (series_at (label r) ser) r) df_orig in
  (df, df_orig,
   SFsub prec emax total_amount (column_sum (map cell_cost df))).

(** [allocate_funds]: the rows of [df_orig] when the loop has ended, whose
    [label], [shares] and [price] are columns of the returned frame, with
    the last residue and the number of passes; [None] while the loop is
    still running. *)
Definition allocate_funds (fuel : nat) (df_orig : list row)
  (total_amount : spec_float) : option (list row * spec_float * nat) :=
  let '(df, df_orig, residue) := phase1 df_orig total_amount in
  redistribute fuel df df_orig residue 0.
End Binary64.

(** ** extract_stock_wieght

    [extract_stock_wieght] is the exact reading; [extract_stock_wieght_in]
    leaves the arithmetic of line 153 open. *)

(** [nlargest(limit, col)]: the first [limit] rows in descending order of
    the column, ties in frame order. *)
Definition nlargest {A : Type} (limit : nat) (key : A -> Q) (l : list A)
  : list A :=
  firstn limit (sort_values_desc key l).

Definition extract_stock_wieght (sector_group : list security) (limit : nat)
  : list stock_row :=
  let sector_group := nlargest limit profitMargins sector_group in
  let sector_group :=
    filter (fun r => Qltb 0 (profitMargins r)) sector_group in
  let total := Qsum (map profitMargins sector_group) in
  map (fun r => {| s_stock := r; stock_wieght := profitMargins r / total |})
      sector_group.

(** [extract_stock_wieght] with the arithmetic of line 153 left to [ar];
    the selection compares margins and is the same in every arithmetic. *)
Definition extract_stock_wieght_in (ar : Arith Q) (sector_group : list security)
  (limit : nat) : list stock_row :=
  let sector_group := nlargest limit profitMargins sector_group in
  let sector_group :=
    filter (fun r => Qltb 0 (profitMargins r)) sector_group in
  let total := series_sum (map profitMargins sector_group) in
  map (fun r => {| s_stock := r;
                   stock_wieght := f_div (profitMargins r) total |})
      sector_group.

(** ** groupby and extract_metrics *)

Fixpoint insert_key (k : string) (l : list string) : list string :=
  match l with
  | [] => [k]
  | y :: l' =>
      match String.compare k y with
      | Lt => k :: l
      | Eq => l
      | Gt => y :: insert_key k l'
      end
  end.

(** The distinct values of a column, ascending (how groupby orders its
    groups). *)
Definition group_keys {A : Type} (col : A -> string) (df : list A)
  : list string :=
  fold_right insert_key [] (map col df).

Definition groupby {A : Type} (col : A -> string) (df : list A)
  : list (string * list A) :=
  map (fun k => (k, filter (fun r => String.eqb (col r) k) df))
      (group_keys col df).

(** [Series.mean()] of a group. *)
Definition mean (l : list Q) : Q :=
  Qsum l / inject_Z (Z.of_nat (List.length l)).

(** [extract_metrics]; the chart it also writes when [sector_name] is given
    is no part of the returned frame. *)
Definition extract_metrics (data_df : list security)
  (sector_name : option string) (group_col : security -> string)
  : list metrics_row :=
  let data_df :=
    match sector_name with
    | Some s => filter (fun r => String.eqb (sector r) s) data_df
    | None => data_df
    end in
  map (fun kg : string * list security =>
         let g := snd kg in
         {| group_key := fst kg;
            total_market_cap := Qsum (map marketCap g);
            avg_pe := mean (map trailingPE g);
            avg_dividend_yield := mean (map dividendYield g);
            avg_1y_return := mean (map week52Change g);
            avg_beta := mean (map beta g);
            mr_sector := sector_name;
            mr_sector_wieghts := None |})
      (groupby group_col data_df).

(** ** portfolio_optimization *)

(** The 'sector' column of a metrics frame: the grouping column when the
    frame is grouped by sector, the added column otherwise. *)
Definition metrics_sector (m : metrics_row) : string :=
  match mr_sector m with
  | Some s => s
  | None => group_key m
  end.

Definition set_sector_wieghts (w : option Q) (m : metrics_row) : metrics_row :=
  {| group_key := group_key m; total_market_cap := total_market_cap m;
     avg_pe := avg_pe m; avg_dividend_yield := avg_dividend_yield m;
     avg_1y_return := avg_1y_return m; avg_beta := avg_beta m;
     mr_sector := mr_sector m; mr_sector_wieghts := w |}.

(** [metrics_df_global['sector_wieghts'] = ...]: the column is written
    onto the frame the caller passed. *)
Definition assign_sector_wieghts (metrics_df_global : list metrics_row)
  : list metrics_row :=
  map (fun mw : metrics_row * Q => set_sector_wieghts (Some (snd mw)) (fst mw))
      (combine metrics_df_global
               (sector_wieghts_col (map avg_beta metrics_df_global))).

(** [stock_port_df.join(metrics[['sector','sector_wieghts']]
      .set_index('sector'), on='sector', how='inner')] followed by the
    [final_wieght] column. *)
Definition join_sector_wieghts (stock_port_df : list stock_row)
  (metrics_df_global : list metrics_row) : list merged_row :=
  flat_map
    (fun r =>
       flat_map
         (fun m =>
            match mr_sector_wieghts m with
            | Some sw =>
                if String.eqb (sector (s_stock r)) (metrics_sector m)
                then [ {| m_stock := s_stock r;
                          m_stock_wieght := stock_wieght r;
                          sector_wieghts := sw;
                          final_wieght := stock_wieght r * sw;
                          shares := None |} ]
                else []
            | None => []
            end)
         metrics_df_global)
    stock_port_df.

(** [sort_values('shares', ascending=False)]; rows without a value go
    last. *)
Definition sort_by_shares (res : list alloc_row) : list alloc_row :=
  sort_values_desc
    (fun r => match a_shares r with Some s => inject_Z s | None => 0 end)
    (filter (fun r => match a_shares r with Some _ => true | None => false end) res)
  ++ filter (fun r => match a_shares r with Some _ => false | None => true end) res.

(** [pd.concat(frames)]; it raises ValueError on an empty list, which is
    [None] here. *)
Definition pd_concat {A : Type} (frames : list (list A)) : option (list A) :=
  match frames with
  | [] => None
  | _ => Some (List.concat frames)
  end.

Fixpoint index_equals (a b : list string) : bool :=
  match a, b with
  | [], [] => true
  | x :: a', y :: b' => String.eqb x y && index_equals a' b'
  | _, _ => false
  end.

(** [result.reindex(index)] for distinct labels: the rows in the order of
    [index]. *)
Definition reindex (result : list stock_row) (index : list string)
  : list stock_row :=
  flat_map (fun lbl => filter (fun r => String.eqb (ticker (s_stock r)) lbl)
                              result)
           index.

(** [stock_port_df.groupby('sector', group_keys=False).apply(f)].  The
    frames [f] returns are concatenated in the order of the groups, and
    there is nothing to concatenate when the frame has no row.  When each
    of them has the index of its group, unchanged, pandas takes [f] for a
    transformation and puts the rows back in the order of the caller's
    index. *)
Definition groupby_apply (f : list security -> list stock_row)
  (stock_port_df : list security) : option (list stock_row) :=
  let groups := groupby sector stock_port_df in
  let indexed_same :=
    forallb (fun kg : string * list security =>
               index_equals (map (fun r => ticker (s_stock r)) (f (snd kg)))
                            (map ticker (snd kg)))
            groups in
  match pd_concat (map (fun kg => f (snd kg)) groups) with
  | None => None
  | Some result =>
      Some (if indexed_same then reindex result (map ticker stock_port_df)
            else result)
  end.

(** How a call ends: it returns, it raises, or its loop is still running
    when the fuel is used up. *)
Inductive exception := ValueError | TypeError.

Inductive run (A : Type) :=
| Returned (a : A)
| Raised (e : exception)
| Running.
Arguments Returned {A} a.
Arguments Raised {A} e.
Arguments Running {A}.

(** [portfolio_optimization]: how the call ends and the final contents of
    the caller's [metrics_df_global], which line 50 writes before anything
    can fail.  [stock_port_df] is only rebound. *)
Definition portfolio_optimization (fuel : nat)
  (metrics_df_global : list metrics_row) (stock_port_df : list security)
  (total_amount : Q) (limit : nat)
  : run (list alloc_row) * list metrics_row :=
  let metrics_df_global := assign_sector_wieghts metrics_df_global in
  match groupby_apply (fun group => extract_stock_wieght group limit)
                      stock_port_df with
  | None => (Raised ValueError, metrics_df_global)
  | Some stock_port_df =>
      let merged_df := join_sector_wieghts stock_port_df metrics_df_global in
      (match allocate_funds fuel merged_df total_amount with
       | Some x => Returned (sort_by_shares (fst x))
       | None => Running
       end,
       metrics_df_global)
  end.

(** [Series.unique()]: distinct values in order of first appearance. *)
Fixpoint unique (l : list string) : list string :=
  match l with
  | [] => []
  | x :: l' => x :: filter (fun y => negb (String.eqb x y)) (unique l')
  end.


(** A candidate with only the columns [allocate_funds] reads. *)
Definition candidate (t : string) (p w : Q) : merged_row :=
  {| m_stock := mk_security t "" "" "" p 0 0 0 0 0 0;
     m_stock_wieght := w; sector_wieghts := 1; final_wieght := w;
     shares := None |}.

Definition counts (res : list alloc_row) : list (string * option Z) :=
  map (fun r => (ticker_symbol r, a_shares r)) res.

(** ** Vocabulary of the statements *)

Inductive subseq {A : Type} : list A -> list A -> Prop :=
| subseq_nil : subseq [] []
| subseq_skip x k l : subseq k l -> subseq k (x :: l)
| subseq_take x k l : subseq k l -> subseq (x :: k) (x :: l).

(** [within_residue] with the running total threaded through. *)
Fixpoint keep_below (acc residue : Q) (l : list merged_row) : list merged_row :=
  match l with
  | [] => []
  | r :: l' =>
      if Qltb (acc + price r) residue
      then r :: keep_below (acc + price r) residue l'
      else keep_below (acc + price r) residue l'
  end.

Definition tp (r : merged_row) : string * Q := (label r, price r).

Definition has_shares (r : merged_row) : Prop := shares r <> None.

(** What the loop keeps fixed: [df] and [df_orig] hold the same labelled
    prices, labels are unique, and every share cell has a value. *)
Definition consistent (df o : list merged_row) : Prop :=
  NoDup (map label df) /\
  Permutation (map tp df) (map tp o) /\
  Forall has_shares o.

(** A bound on the passes from the residue and the cheapest price. *)
Definition pass_bound (residue m : Q) : nat :=
  Z.to_nat (Qceiling (residue / m)).

Definition floored (total_amount : Q) (r : merged_row) : merged_row :=
  set_shares (Some (floor_shares total_amount r)) r.



(** Budget 1000, "A" at 300 with weight 1/2 and "C" at 100 with weight
    2/5: Phase 1 buys 1 and 4 shares and leaves exactly 300. *)
Definition residue_300 : list merged_row :=
  [candidate "A" 300 (1#2); candidate "C" 100 (2#5)].




Definition grows (a b : merged_row) : Prop :=
  match shares a, shares b with
  | Some x, Some y => (x <= y)%Z
  | None, None => True
  | _, _ => False
  end.

(** A small universe: two sectors, three securities. *)
Definition universe : list security :=
  [ mk_security "AAA" "Tech" "Software" "aaa.example" 100 5000 30 (1#100) (2#10) 2 (3#10);
    mk_security "BBB" "Tech" "Chips" "bbb.example" 50 3000 20 (2#100) (1#10) 1 (1#10);
    mk_security "CCC" "Energy" "Oil" "ccc.example" 20 1000 10 (5#100) (1#20) (1#2) (2#10) ].

Definition universe_metrics : list metrics_row :=
  extract_metrics universe None sector.

(** The selection of a sector in the spec's words: the rows past the
    first [limit] in descending order of margin are [dropped]. *)
Definition dropped (limit : nat) (sector_group : list security) : list security :=
  skipn limit (sort_values_desc profitMargins sector_group).

Definition margins (ms : list Q) : list security :=
  map (fun m => mk_security "T" "S" "I" "w" 10 0 0 0 0 1 m) ms.

#[local] Existing Instance Binary64.arith.

Definition is_inf (x : spec_float) : bool :=
  match x with S754_infinity _ => true | _ => false end.

Definition inf_or_nan (x : spec_float) : bool :=
  match x with S754_infinity _ | S754_nan => true | _ => false end.

(** ** Vocabulary of the further statements *)

(** [l1] is contained in [l2], counting repetitions. *)
Definition subperm {A : Type} (l1 l2 : list A) : Prop :=
  exists rest, Permutation (l1 ++ rest) l2.

(** ** get_sp_500_info *)

(** What [tickers_obj.tickers[sym].info] holds for one symbol;
    [info_sector] is [None] when the entry has no sector. *)
Record yf_info := mk_yf_info {
  info_sector : option string;
  info_industry : string;
  info_website : string;
  info_regularMarketPrice : Q;
  info_marketCap : Q;
  info_trailingPE : Q;
  info_dividendYield : Q;
  info_week52Change : Q;
  info_beta : Q;
  info_profitMargins : Q
}.

Section DataSource.
(** The symbols of the Wikipedia table ([get_sp_500_tickers]) and the
    answer of the data provider for a symbol. *)
Variable get_sp_500_tickers : unit -> list string.
Variable ticker_info : string -> yf_info.

(** [{sym: tickers_obj.tickers[sym].info for sym in tickers}]: a dict keeps
    one entry per key, in the order the keys first came.  Every lookup is
    taken to answer. *)
Definition info_dict : list (string * yf_info) :=
  map (fun sym => (sym, ticker_info sym)) (unique (get_sp_500_tickers tt)).

(** [DataFrame.from_dict(info_dict, orient="index")] filtered by
    [pd.notna(stock_info_df.sector)]. *)
Definition get_sp_500_info (_ : unit) : list security :=
  flat_map
    (fun kv : string * yf_info =>
       match info_sector (snd kv) with
       | Some s =>
           [ {| ticker := fst kv;
                sector := s;
                industry := info_industry (snd kv);
                website := info_website (snd kv);
                regularMarketPrice := info_regularMarketPrice (snd kv);
                marketCap := info_marketCap (snd kv);
                trailingPE := info_trailingPE (snd kv);
                dividendYield := info_dividendYield (snd kv);
                week52Change := info_week52Change (snd kv);
                beta := info_beta (snd kv);
                profitMargins := info_profitMargins (snd kv) |} ]
       | None => []
       end)
    info_dict.
End DataSource.



(** ** plot_thematic_sector_metrics *)

Fixpoint insert_asc {A : Type} (key : A -> Q) (x : A) (l : list A) : list A :=
  match l with
  | [] => [x]
  | y :: l' => if Qle_bool (key x) (key y) then x :: l
               else y :: insert_asc key x l'
  end.

(** [sort_values(key, ascending=True)]: rows with equal keys keep their
    relative order. *)
Definition sort_values_asc {A : Type} (key : A -> Q) (l : list A) : list A :=
  fold_right (insert_asc key) [] l.

(** [sort_values(key, ascending=ascending)] *)
Definition sort_values {A : Type} (ascending : bool) (key : A -> Q) (l : list A)
  : list A :=
  if ascending then sort_values_asc key l else sort_values_desc key l.

(** What the call draws and writes: the rows handed to each of the four
    bar plots, top to bottom, and the file the figure is saved to. *)
Record chart := mk_chart {
  panel_market_cap : list metrics_row;
  panel_pe : list metrics_row;
  panel_dividend_yield : list metrics_row;
  panel_return : list metrics_row;
  save_path : string
}.

(** [plot_thematic_sector_metrics]; [sector_col] only names the column of
    the bar labels, which is [group_key] here. *)
Definition plot_thematic_sector_metrics (summary_df : list metrics_row)
  (sector_name : string) (limit : nat) (ascending : bool) : chart :=
  let limit :=
    if (List.length summary_df <? limit)%nat then List.length summary_df
    else limit in
  {| panel_market_cap :=
       firstn limit (sort_values ascending total_market_cap summary_df);
     panel_pe := firstn limit (sort_values ascending avg_pe summary_df);
     panel_dividend_yield :=
       firstn limit (sort_values ascending avg_dividend_yield summary_df);
     panel_return :=
       firstn limit (sort_values ascending avg_1y_return summary_df);
     save_path := String.append sector_name ".png" |}.

(** The chart a call of [extract_metrics] writes (lines 292-294): one when
    a sector is named, with the default [limit=10] and
    [ascending=False]. *)
Definition extract_metrics_chart (data_df : list security)
  (sector_name : option string) (group_col : security -> string)
  : option chart :=
  match sector_name with
  | Some s =>
      Some (plot_thematic_sector_metrics
              (extract_metrics data_df sector_name group_col) s 10 false)
  | None => None
  end.

(** The panel [panel] shows the first [limit] rows of [df] in the order of
    [key]: descending, or ascending when [ascending] is set. *)
Definition in_order {A : Type} (ascending : bool) (key : A -> Q) (a b : A) : Prop :=
  if ascending then key a <= key b else key b <= key a.

Definition shows_first {A : Type} (ascending : bool) (key : A -> Q)
  (limit : nat) (panel df : list A) : Prop :=
  List.length panel = Nat.min limit (List.length df) /\
  StronglySorted (in_order ascending key) panel /\
  exists rest, Permutation df (panel ++ rest) /\
               forall a b, In a panel -> In b rest -> in_order ascending key a b.

(** ** report_generator.py *)

(** The reportlab flowables the report is made of, as the arguments they
    are constructed from; every constructor and every call of the language
    model is taken to return. *)
Inductive flowable :=
| Spacer (width height : Q)
| Paragraph (text style : string)
| PageBreak
| Image (filename : string) (width height : Q) (hAlign : string).

(** What a variable that names the report list holds. *)
Inductive pyref := ListRef | PyNone.

(** The objects the report builder works on: the list created at line 45
    and the requests sent to the language model so far, oldest first. *)
Record report_state := mk_report_state {
  report_list : list flowable;
  llm_requests : list string
}.

Definition newline : string := String (Ascii.ascii_of_nat 10) EmptyString.

Definition image_files (story : list flowable) : list string :=
  flat_map (fun f => match f with Image p _ _ _ => [p] | _ => [] end) story.

Section ReportGenerator.
(** The answer of the language model to its n-th request (from 0);
    [DataFrame.to_xml]; [str.strip]; reportlab's [A4] and [inch]; the two
    texts of prompts.py. *)
Variable llm_answer : nat -> string -> string.
Variable to_xml : list metrics_row -> string.
Variable strip : string -> string.
Variable A4 : Q * Q.
Variable inch : Q.
Variable STOCK_ANALYZER_PROMPT : string.
Variable PORTFOLIO_OPTIMIZER_PROMPT : string.

Definition Report (A : Type) : Type := report_state -> A * report_state.

Definition ret {A : Type} (a : A) : Report A := fun st => (a, st).

Definition bind {A B : Type} (c : Report A) (k : A -> Report B) : Report B :=
  fun st => let (a, st') := c st in k a st'.

Local Notation "x <- c1 ;; c2" := (bind c1 (fun x => c2))
  (at level 61, c1 at next level, right associativity).
Local Notation "c1 ;; c2" := (bind c1 (fun _ => c2))
  (at level 61, right associativity).

(** [report.append(f)] *)
Definition report_append (f : flowable) : Report unit :=
  fun st => (tt, {| report_list := report_list st ++ [f];
                    llm_requests := llm_requests st |}).

(** [LLM.get_response] *)
Definition get_response (prompt : string) : Report string :=
  fun st => (llm_answer (List.length (llm_requests st)) prompt,
             {| report_list := report_list st;
                llm_requests := llm_requests st ++ [prompt] |}).

Definition build_prompt (metrics_df : list metrics_row) : string :=
  String.append (to_xml metrics_df)
    (String.append newline (String.append newline STOCK_ANALYZER_PROMPT)).

Definition generate_analysis (metrics_df : list metrics_row) : Report string :=
  let prompt := build_prompt metrics_df in
  get_response prompt.

Definition build_cover_page (text : string) : Report pyref :=
  report_append (Spacer 1 (snd A4 / (25#10))) ;;
  report_append (Paragraph (strip text) "HeaderStyle") ;;
  report_append PageBreak ;;
  ret ListRef.

Definition build_section (sector_name : string) (metrics_df : list metrics_row)
  : Report pyref :=
  report_append (Paragraph
            (String.append "Analysis of " (String.append sector_name " Sector"))
            "TitleStyle") ;;
  let head_text :=
    String.append
      "Below is a financial analysis of the investment trends in the "
      (String.append sector_name " Sector") in
  report_append (Paragraph head_text "BodyStyle") ;;
  report_append (Image (String.append sector_name ".png") (7 * inch) ((45#10) * inch)
                "CENTER") ;;
  analysis_text <- generate_analysis metrics_df ;;
  report_append (Paragraph (strip analysis_text) "BodyStyle") ;;
  ret ListRef.

(** [build_portfolio_section] has no [return] statement. *)
Definition build_portfolio_section : Report pyref :=
  build_cover_page "PORTFOLIO OPTIMIZATION" ;;
  report_append (Paragraph "TECHNIQUE" "TitleStyle") ;;
  text <- get_response PORTFOLIO_OPTIMIZER_PROMPT ;;
  report_append (Paragraph (strip text) "BodyStyle") ;;
  ret PyNone.

(** The [for sector_name in sector_list] loop of [build_final_report]. *)
Fixpoint build_sections (metrics_df : list metrics_row)
  (sector_list : list string) : Report unit :=
  match sector_list with
  | [] => ret tt
  | sector_name :: rest =>
      build_section sector_name
        (filter (fun m => String.eqb (metrics_sector m) sector_name) metrics_df) ;;
      report_append PageBreak ;;
      build_sections metrics_df rest
  end.

(** [build_final_report], up to the call [self.doc.build(report)]: the
    argument of that call ([None] when [report] is [None]) and the objects
    as the call finds them.  [requests] are the requests the model has
    seen before. *)
Definition build_final_report (metrics_df : list metrics_row)
  (sector_list : list string) (requests : list string)
  : option (list flowable) * report_state :=
  (build_cover_page "Report On Analysis of S&P 500 Stocks" ;;
   build_sections metrics_df sector_list ;;
   report <- build_portfolio_section ;;
   fun st => (match report with
              | ListRef => Some (report_list st)
              | PyNone => None
              end, st))
    {| report_list := []; llm_requests := requests |}.
End ReportGenerator.

(** The charts and the report of one run of [main] on the table
    [stock_data_df] the data source delivered (lines 42-61). *)
Definition main_charts (stock_data_df : list security) : list chart :=
  flat_map (fun s => match extract_metrics_chart stock_data_df (Some s) industry with
                     | Some c => [c]
                     | None => []
                     end)
           (unique (map sector stock_data_df)).

(** Lines 46-54 of [main]: the industry metrics of every sector,
    concatenated. *)
Definition main_total_sector_metrics (stock_data_df : list security)
  : option (list metrics_row) :=
  pd_concat (map (fun s => extract_metrics stock_data_df (Some s) industry)
                 (unique (map sector stock_data_df))).

(** [self.doc.build(report)]: reportlab takes the length of the list it is
    given before anything else, and [None] has none. *)
Definition doc_build (report : option (list flowable)) : option exception :=
  match report with
  | None => Some TypeError
  | Some _ => None
  end.

Section MainReport.
Variable llm_answer : nat -> string -> string.
Variable to_xml : list metrics_row -> string.
Variable strip : string -> string.
Variable A4 : Q * Q.
Variable inch : Q.
Variable STOCK_ANALYZER_PROMPT : string.
Variable PORTFOLIO_OPTIMIZER_PROMPT : string.

(** Lines 42-61 of [main], from the table [stock_data_df] that line 39
    delivered to the call [self.doc.build(report)] inside
    [build_final_report]: the portfolio of line 57 with the argument of
    that call and the objects as the call finds them.  [None] when
    [pd.concat] or [portfolio_optimization] raises, or when the loop of
    [allocate_funds] is still running after [fuel] passes. *)
Definition main_report (fuel : nat) (stock_data_df : list security)
  (portfolio_amount : Z) (portfolio_sector_size : nat) (requests : list string)
  : option (list alloc_row * (option (list flowable) * report_state)) :=
  let sectors_list := unique (map sector stock_data_df) in
  let metrics_df_global := extract_metrics stock_data_df None sector in
  match main_total_sector_metrics stock_data_df with
  | None => None
  | Some total_sector_metrics =>
      match fst (portfolio_optimization fuel metrics_df_global stock_data_df
                   (inject_Z portfolio_amount) portfolio_sector_size) with
      | Returned portfolio =>
          Some (portfolio,
                build_final_report llm_answer to_xml strip A4 inch
                  STOCK_ANALYZER_PROMPT PORTFOLIO_OPTIMIZER_PROMPT
                  total_sector_metrics sectors_list requests)
      | _ => None
      end
  end.

(** What the data source answers to [get_sp_500_info()] in this run, and
    the requests the language model has seen before it. *)
Variable get_sp_500_info : unit -> list security.
Variable requests : list string.

(** [main]: how the call ends.  Line 39 rebinds [stock_data_df]; line 54
    raises when there is nothing to concatenate; line 61 builds the
    report, and its [doc.build] raises on the [None] it is given; line 63
    returns the portfolio. *)
Definition main (fuel : nat) (stock_data_df : list security)
  (portfolio_amount : Z) (portfolio_sector_size : nat)
  : run (list alloc_row) :=
  let stock_data_df := get_sp_500_info tt in
  let sectors_list := unique (map sector stock_data_df) in
  let metrics_df_global := extract_metrics stock_data_df None sector in
  match main_total_sector_metrics stock_data_df with
  | None => Raised ValueError
  | Some total_sector_metrics =>
      match fst (portfolio_optimization fuel metrics_df_global stock_data_df
                   (inject_Z portfolio_amount) portfolio_sector_size) with
      | Returned portfolio =>
          match doc_build
                  (fst (build_final_report llm_answer to_xml strip A4 inch
                          STOCK_ANALYZER_PROMPT PORTFOLIO_OPTIMIZER_PROMPT
                          total_sector_metrics sectors_list requests)) with
          | Some e => Raised e
          | None => Returned portfolio
          end
      | Raised e => Raised e
      | Running => Running
      end
  end.
End MainReport.

(** Stand-ins for the collaborators of the report in the examples. *)
Definition example_llm (n : nat) (prompt : string) : string := "analysis".
Definition example_to_xml (metrics_df : list metrics_row) : string := "<data/>".
Definition example_strip (text : string) : string := text.


(** ** Inputs of the float64 runs *)

(** A float64 candidate without a share count yet. *)
Definition candidate64 (t : string) (p w : spec_float) : Binary64.row :=
  Binary64.mk_row t p w None.

(** One stock at 1.1 that carries the whole weight, for a budget of 187. *)
Definition one_stock_at_1_1 : list Binary64.row :=
  [candidate64 "A" (Binary64.of_ratio 11 10) Binary64.one].

(** One stock at 3 with weight 0.5, for a budget of 1e17. *)
Definition one_stock_at_3 : list Binary64.row :=
  [candidate64 "A" (Binary64.of_pos 3) (Binary64.of_ratio 1 2)].

Definition budget_1e17 : spec_float := Binary64.of_pos 100000000000000000.


(** Profit margins 0.4, 0.3 and 0.1. *)
Definition margins64 : list spec_float :=
  [Binary64.of_ratio 4 10; Binary64.of_ratio 3 10; Binary64.of_ratio 1 10].

(** An arithmetic that rounds every result up by one unit roundoff. *)
Definition round_up (x : Q) : Q := (1 + unit_roundoff) * x.
(** * Auxiliary facts *)

(** ** Comparisons and sums *)

Lemma Qltb_lt (x y : Q) : Qltb x y = true <-> x < y.
Proof.
  unfold Qltb. rewrite negb_true_iff. split; intros E.
  - apply Qnot_le_lt. intros L. apply Qle_bool_iff in L. congruence.
  - destruct (Qle_bool y x) eqn:B; [ | reflexivity ].
    apply Qle_bool_iff in B. lra.
Qed.

Lemma Qltb_ge (x y : Q) : Qltb x y = false <-> y <= x.
Proof.
  unfold Qltb. rewrite negb_false_iff. apply Qle_bool_iff.
Qed.

Lemma Qsum_app (a b : list Q) : Qsum (a ++ b) == Qsum a + Qsum b.
Proof.
  induction a as [ | x a IH ]; simpl; [ lra | rewrite IH; lra ].
Qed.

Lemma Qsum_perm (a b : list Q) : Permutation a b -> Qsum a == Qsum b.
Proof.
  induction 1; simpl; lra.
Qed.

Lemma Qsum_map_ext {A : Type} (f g : A -> Q) (l : list A) :
  (forall x, In x l -> f x == g x) -> Qsum (map f l) == Qsum (map g l).
Proof.
  induction l as [ | x l IH ]; intros E; simpl; [ lra | ].
  rewrite (E x (or_introl eq_refl)), IH; [ lra | ].
  intros y Hy. apply E. now right.
Qed.

Lemma Qsum_map_le {A : Type} (f g : A -> Q) (l : list A) :
  (forall x, In x l -> f x <= g x) -> Qsum (map f l) <= Qsum (map g l).
Proof.
  induction l as [ | x l IH ]; intros E; simpl; [ lra | ].
  assert (f x <= g x) by (apply E; now left).
  assert (Qsum (map f l) <= Qsum (map g l)) by (apply IH; intros; apply E; now right).
  lra.
Qed.

Lemma Qsum_map_scale {A : Type} (c : Q) (f : A -> Q) (l : list A) :
  Qsum (map (fun x => c * f x) l) == c * Qsum (map f l).
Proof.
  induction l as [ | x l IH ]; simpl; [ lra | rewrite IH; lra ].
Qed.

Lemma Qsum_nonneg (l : list Q) : Forall (fun x => 0 <= x) l -> 0 <= Qsum l.
Proof.
  induction 1; simpl; lra.
Qed.

(** ** sort_values is a reordering *)

Lemma insert_desc_perm {A : Type} (key : A -> Q) (x : A) (l : list A) :
  Permutation (x :: l) (insert_desc key x l).
Proof.
  induction l as [ | y l IH ]; simpl; [ reflexivity | ].
  destruct (Qle_bool (key y) (key x)); [ reflexivity | ].
  rewrite perm_swap. now constructor.
Qed.

Lemma sort_values_desc_perm {A : Type} (key : A -> Q) (l : list A) :
  Permutation l (sort_values_desc key l).
Proof.
  induction l as [ | x l IH ]; simpl; [ constructor | ].
  rewrite <- insert_desc_perm. now constructor.
Qed.

(** ** Subsequences *)

Lemma subseq_In {A : Type} (k l : list A) (x : A) :
  subseq k l -> In x k -> In x l.
Proof.
  induction 1; simpl; intuition.
Qed.

Lemma subseq_trans {A : Type} (a b c : list A) :
  subseq a b -> subseq b c -> subseq a c.
Proof.
  intros Hab Hbc. revert a Hab.
  induction Hbc; intros a Hab.
  - assumption.
  - constructor. now apply IHHbc.
  - inversion Hab; subst.
    + constructor. now apply IHHbc.
    + apply subseq_take. now apply IHHbc.
Qed.

Lemma subseq_filter {A : Type} (f : A -> bool) (l : list A) :
  subseq (filter f l) l.
Proof.
  induction l as [ | x l IH ]; simpl; [ constructor | ].
  destruct (f x); now constructor.
Qed.

Lemma subseq_map {A B : Type} (f : A -> B) (k l : list A) :
  subseq k l -> subseq (map f k) (map f l).
Proof.
  induction 1; simpl; now constructor.
Qed.

(** ** The retained prefix of a pass *)

Lemma within_residue_keep_below_from (acc residue : Q) (l : list merged_row) :
  map fst (filter (fun rc : merged_row * Q => Qltb (snd rc) residue)
             (combine l (cumsum acc (map price l))))
  = keep_below acc residue l.
Proof.
  revert acc. induction l as [ | r l IH ]; intros acc; simpl; [ reflexivity | ].
  destruct (Qltb (acc + price r) residue); simpl; now rewrite IH.
Qed.

Lemma within_residue_keep_below (residue : Q) (l : list merged_row) :
  within_residue residue l = keep_below 0 residue l.
Proof. apply within_residue_keep_below_from. Qed.

Lemma keep_below_subseq (acc residue : Q) (l : list merged_row) :
  subseq (keep_below acc residue l) l.
Proof.
  revert acc. induction l as [ | r l IH ]; intros acc; simpl; [ constructor | ].
  destruct (Qltb (acc + price r) residue); now constructor.
Qed.

Lemma keep_below_sum (residue : Q) (l : list merged_row) :
  Forall (fun r => 0 <= price r) l ->
  forall acc, keep_below acc residue l <> [] ->
  acc + Qsum (map price (keep_below acc residue l)) < residue.
Proof.
  induction 1 as [ | r l Hr Hl IH ]; intros acc Hne; simpl in *.
  - now elim Hne.
  - destruct (Qltb (acc + price r) residue) eqn:E.
    + apply Qltb_lt in E. simpl.
      destruct (keep_below (acc + price r) residue l) eqn:K.
      * simpl. lra.
      * rewrite <- K in *. 
        assert (keep_below (acc + price r) residue l <> []) as N
          by (rewrite K; discriminate).
        specialize (IH _ N). lra.
    + specialize (IH _ Hne). lra.
Qed.

Lemma within_residue_sum (residue : Q) (l : list merged_row) :
  Forall (fun r => 0 <= price r) l ->
  within_residue residue l <> [] ->
  Qsum (map price (within_residue residue l)) < residue.
Proof.
  intros Hl Hne. rewrite within_residue_keep_below in *.
  pose proof (keep_below_sum residue l Hl 0 Hne). lra.
Qed.

Lemma within_residue_head (residue : Q) (r : merged_row) (l : list merged_row) :
  price r < residue ->
  exists k, within_residue residue (r :: l) = r :: k.
Proof.
  intros Hr. rewrite within_residue_keep_below. simpl.
  assert (Qltb (0 + price r) residue = true) as ->
    by (apply Qltb_lt; lra).
  eauto.
Qed.

(** ** Label-directed updates *)

Lemma isin_In (x : string) (l : list string) : isin x l = true <-> In x l.
Proof.
  unfold isin. rewrite existsb_exists. split.
  - intros (y & Hy & E). apply String.eqb_eq in E. now subst.
  - intros Hx. exists x. split; [ assumption | apply String.eqb_refl ].
Qed.

Lemma isin_not_In (x : string) (l : list string) : isin x l = false <-> ~ In x l.
Proof.
  rewrite <- isin_In. destruct (isin x l); intuition congruence.
Qed.

Lemma bump_tp (K o : list merged_row) : map tp (bump K o) = map tp o.
Proof.
  unfold bump. rewrite map_map. apply map_ext. intros r.
  now destruct (isin (label r) (map label K)).
Qed.

Lemma bump_has_shares (K o : list merged_row) :
  Forall has_shares o -> Forall has_shares (bump K o).
Proof.
  unfold bump. intros Ho. apply Forall_map.
  eapply Forall_impl; [ | exact Ho ]. intros r Hr.
  destruct (isin (label r) (map label K)); [ | assumption ].
  unfold has_shares in *. simpl. now destruct (shares r).
Qed.

Lemma spent_bump (K o : list merged_row) :
  Forall has_shares o ->
  spent (bump K o) ==
  spent o + Qsum (map price (filter (fun r => isin (label r) (map label K)) o)).
Proof.
  unfold spent, bump. induction 1 as [ | r o Hr Ho IH ]; simpl; [ lra | ].
  destruct (isin (label r) (map label K)); simpl; rewrite IH.
  - unfold has_shares in Hr. unfold cell_cost at 1 3. simpl.
    destruct (shares r) as [ s | ]; [ | now elim Hr ].
    simpl. unfold price at 1. simpl. fold (price r).
    unfold Z.succ. rewrite inject_Z_plus. unfold inject_Z at 2. lra.
  - lra.
Qed.

Lemma filter_isin_subseq (K l : list (string * Q)) :
  NoDup (map fst l) -> subseq K l ->
  filter (fun x => isin (fst x) (map fst K)) l = K.
Proof.
  intros Hnd Hs. induction Hs as [ | x k l Hs IH | x k l Hs IH ]; simpl in *.
  - reflexivity.
  - inversion Hnd as [ | ? ? Hx Hl ]; subst.
    assert (isin (fst x) (map fst k) = false) as ->.
    { apply isin_not_In. intros Hin. apply Hx.
      apply in_map_iff in Hin. destruct Hin as (y & Ey & Hy).
      apply in_map_iff. exists y. split; [ assumption | ].
      eapply subseq_In; eassumption. }
    now apply IH.
  - inversion Hnd as [ | ? ? Hx Hl ]; subst.
    rewrite String.eqb_refl. simpl. f_equal.
    transitivity (filter (fun y => isin (fst y) (map fst k)) l); [ | now apply IH ].
    apply filter_ext_in. intros y Hy.
    destruct (String.eqb (fst y) (fst x)) eqn:E; [ | reflexivity ].
    apply String.eqb_eq in E. elim Hx. rewrite <- E. now apply in_map.
Qed.

Lemma filter_perm {A : Type} (f : A -> bool) (a b : list A) :
  Permutation a b -> Permutation (filter f a) (filter f b).
Proof.
  induction 1 as [ | x a b _ IH | x y a | a b c _ IH1 _ IH2 ]; simpl.
  - constructor.
  - destruct (f x); [ now constructor | assumption ].
  - destruct (f x), (f y); try reflexivity. apply perm_swap.
  - now transitivity (filter f b).
Qed.

Lemma filter_tp (f : string -> bool) (l : list merged_row) :
  map price (filter (fun r => f (label r)) l)
  = map snd (filter (fun x => f (fst x)) (map tp l)).
Proof.
  induction l as [ | r l IH ]; simpl; [ reflexivity | ].
  destruct (f (label r)); simpl; now rewrite IH.
Qed.

(** With unique labels, the rows of [df_orig] selected by [isin] cost
    exactly what the retained rows of [df] cost. *)
Lemma isin_cost (K df o : list merged_row) :
  NoDup (map label df) ->
  Permutation (map tp df) (map tp o) ->
  subseq K df ->
  Qsum (map price (filter (fun r => isin (label r) (map label K)) o))
  == Qsum (map price K).
Proof.
  intros Hnd Hp Hs.
  rewrite (filter_tp (fun t => isin t (map label K))).
  rewrite <- (Qsum_perm _ _
    (Permutation_map snd (filter_perm (fun x => isin (fst x) (map label K)) _ _ Hp))).
  replace (map label K) with (map fst (map tp K)) by (now rewrite map_map).
  rewrite filter_isin_subseq.
  - rewrite map_map. apply Qsum_map_ext. intros r _. simpl. reflexivity.
  - now rewrite map_map.
  - now apply subseq_map.
Qed.

(** ** One pass of the redistribution loop *)

Lemma affordable_spec (residue : Q) (df : list merged_row) (r : merged_row) :
  In r (affordable residue df) <-> In r df /\ price r < residue.
Proof.
  unfold affordable. rewrite filter_In, Qltb_lt. reflexivity.
Qed.

Lemma redistribute_pass_break (df o : list merged_row) (residue : Q) :
  redistribute_pass df o residue = None <-> affordable residue df = [].
Proof.
  unfold redistribute_pass. destruct (affordable residue df); split;
    intros; congruence.
Qed.

Lemma redistribute_pass_spec (df o o' : list merged_row) (residue residue' : Q) :
  redistribute_pass df o residue = Some (o', residue') ->
  let K := within_residue residue (affordable residue df) in
  K <> [] /\ subseq K df /\
  Forall (fun r => price r < residue) K /\
  o' = bump K o /\ residue' = residue - Qsum (map price K).
Proof.
  unfold redistribute_pass.
  destruct (affordable residue df) as [ | r l ] eqn:A; [ discriminate | ].
  intros E. injection E as <- <-. repeat split.
  - assert (price r < residue) as Hr
      by (apply (affordable_spec residue df r); rewrite A; now left).
    destruct (within_residue_head residue r l Hr) as (k & ->). discriminate.
  - apply subseq_trans with (r :: l).
    + rewrite within_residue_keep_below. apply keep_below_subseq.
    + rewrite <- A. apply subseq_filter.
  - apply Forall_forall. intros x Hx.
    apply (affordable_spec residue df x). rewrite A.
    eapply subseq_In; [ | exact Hx ].
    rewrite within_residue_keep_below. apply keep_below_subseq.
Qed.

Lemma filter_all_false {A : Type} (f : A -> bool) (l : list A) :
  (forall x, In x l -> f x = false) -> filter f l = [].
Proof.
  induction l as [ | x l IH ]; intros E; simpl; [ reflexivity | ].
  rewrite (E x (or_introl eq_refl)). apply IH. intros y Hy. apply E. now right.
Qed.

Lemma subseq_Forall {A : Type} (P : A -> Prop) (k l : list A) :
  subseq k l -> Forall P l -> Forall P k.
Proof.
  intros Hs Hl. apply Forall_forall. intros x Hx.
  rewrite Forall_forall in Hl. apply Hl. eapply subseq_In; eassumption.
Qed.

Lemma Qsum_prices_ge (m : Q) (K : list merged_row) :
  0 <= m -> K <> [] -> Forall (fun r => m <= price r) K ->
  m <= Qsum (map price K).
Proof.
  intros Hm Hne HK. destruct HK as [ | r K Hr HK ]; [ now elim Hne | ].
  simpl. assert (0 <= Qsum (map price K)).
  { apply Qsum_nonneg. apply Forall_map.
    eapply Forall_impl; [ | exact HK ]. simpl. intros; lra. }
  lra.
Qed.

(** A pass that does not break buys at least one share, pays for it out
    of the residue and leaves a positive residue. *)
Lemma redistribute_pass_step (m : Q) (df o o' : list merged_row)
  (residue residue' : Q) :
  0 < m -> Forall (fun r => m <= price r) df ->
  redistribute_pass df o residue = Some (o', residue') ->
  0 < residue' /\ residue' <= residue - m /\ map tp o' = map tp o /\
  (consistent df o ->
   consistent df o' /\ spent o' + residue' == spent o + residue).
Proof.
  intros Hm Hdf E.
  destruct (redistribute_pass_spec _ _ _ _ _ E) as (Hne & Hs & HK & -> & ->).
  set (K := within_residue residue (affordable residue df)) in *.
  assert (Forall (fun r => m <= price r) K) as HKm
    by (eapply subseq_Forall; eassumption).
  assert (Qsum (map price K) < residue) as Hlt.
  { apply within_residue_sum; [ | exact Hne ].
    apply (subseq_Forall _ _ df (subseq_filter _ df)).
    eapply Forall_impl; [ | exact Hdf ]. simpl. intros; lra. }
  pose proof (Qsum_prices_ge m K (Qlt_le_weak _ _ Hm) Hne HKm).
  repeat split; try lra.
  - apply bump_tp.
  - apply H0.
  - rewrite bump_tp. apply H0.
  - apply bump_has_shares, H0.
  - destruct H0 as (Hnd & Hp & Hh).
    rewrite (spent_bump K o Hh), (isin_cost K df o Hnd Hp Hs). lra.
Qed.

(** ** The redistribution loop *)

(** Whatever the loop returns is consistent with what it started from and
    accounts for every unit of cash it took from the residue. *)
Lemma redistribute_sound (m : Q) (df : list merged_row) :
  0 < m -> Forall (fun r => m <= price r) df ->
  forall fuel o residue n o' residue' n',
    redistribute fuel df o residue n = Some (o', residue', n') ->
    consistent df o -> 0 <= residue ->
    consistent df o' /\ spent o' + residue' == spent o + residue /\
    0 <= residue' /\ map tp o' = map tp o.
Proof.
  intros Hm Hdf. induction fuel as [ | fuel IH ]; intros o residue n o' residue' n' E Hc Hr;
    simpl in E; [ discriminate | ].
  destruct (redistribute_pass df o residue) as [ [o1 r1] | ] eqn:P.
  - destruct (redistribute_pass_step m df o o1 residue r1 Hm Hdf P)
      as (Hr1 & _ & Htp & Hstep).
    destruct (Hstep Hc) as (Hc1 & Hs1).
    destruct (IH _ _ _ _ _ _ E Hc1 (Qlt_le_weak _ _ Hr1)) as (Hc' & Hs' & Hr' & Htp').
    split; [ exact Hc' | ]. split; [ lra | ]. split; [ exact Hr' | congruence ].
  - injection E as <- <- <-.
    split; [ exact Hc | ]. split; [ lra | ]. split; [ exact Hr | reflexivity ].
Qed.

(** With every price at least [m > 0], a residue of at most [k * m] is
    used up within [k] passes. *)
Lemma redistribute_terminates (m : Q) (df : list merged_row) :
  0 < m -> Forall (fun r => m <= price r) df ->
  forall k o residue n,
    residue <= inject_Z (Z.of_nat k) * m ->
    forall fuel, (k < fuel)%nat ->
    exists o' residue' n',
      redistribute fuel df o residue n = Some (o', residue', n') /\
      (n' <= n + k)%nat.
Proof.
  intros Hm Hdf. induction k as [ | k IH ]; intros o residue n Hr fuel Hf;
    (destruct fuel as [ | fuel ]; [ lia | ]); simpl.
  - assert (redistribute_pass df o residue = None) as ->.
    { apply redistribute_pass_break. unfold affordable.
      apply filter_all_false.
      rewrite Forall_forall in Hdf. intros r Hin.
      specialize (Hdf r Hin). unfold inject_Z in Hr. simpl in Hr.
      apply Qltb_ge. lra. }
    exists o, residue, n. split; [ reflexivity | lia ].
  - destruct (redistribute_pass df o residue) as [ [o1 r1] | ] eqn:P.
    + destruct (redistribute_pass_step m df o o1 residue r1 Hm Hdf P)
        as (_ & Hle & _).
      assert (r1 <= inject_Z (Z.of_nat k) * m) as Hr1.
      { rewrite Nat2Z.inj_succ in Hr. unfold Z.succ in Hr.
        rewrite inject_Z_plus in Hr. unfold inject_Z at 2 in Hr. lra. }
      destruct (IH o1 r1 (S n) Hr1 fuel ltac:(lia)) as (o' & r' & n' & E & Hn).
      exists o', r', n'. split; [ exact E | lia ].
    + exists o, residue, n. split; [ reflexivity | lia ].
Qed.

Lemma pass_bound_covers (residue m : Q) :
  0 < m -> residue <= inject_Z (Z.of_nat (pass_bound residue m)) * m.
Proof.
  intros Hm. unfold pass_bound.
  pose proof (Qle_ceiling (residue / m)) as C.
  assert (inject_Z (Qceiling (residue / m))
          <= inject_Z (Z.of_nat (Z.to_nat (Qceiling (residue / m))))) as Z2.
  { rewrite <- Zle_Qle. lia. }
  assert (residue / m * m == residue) as E by (field; lra).
  apply Qle_trans with (residue / m * m).
  - rewrite E. apply Qle_refl.
  - apply Qmult_le_compat_r; lra.
Qed.

Lemma positive_prices_bounded_below (df : list merged_row) :
  Forall (fun r => 0 < price r) df ->
  exists m, 0 < m /\ Forall (fun r => m <= price r) df.
Proof.
  induction 1 as [ | r df Hr Hdf (m & Hm & IH) ].
  - exists 1. split; [ lra | constructor ].
  - destruct (Qlt_le_dec (price r) m) as [ L | L ].
    + exists (price r). split; [ assumption | ].
      constructor; [ lra | ].
      eapply Forall_impl; [ | exact IH ]. simpl. intros; lra.
    + exists m. split; [ assumption | ]. now constructor.
Qed.

(** ** Phase 1 *)

Lemma series_at_own (f : merged_row -> Z) (l : list merged_row) (r : merged_row) :
  NoDup (map label l) -> In r l ->
  series_at (label r) (map (fun x => (label x, f x)) l) = Some (f r).
Proof.
  induction l as [ | x l IH ]; intros Hnd Hin; simpl in *; [ contradiction | ].
  inversion Hnd as [ | ? ? Hx Hl ]; subst.
  destruct Hin as [ -> | Hin ].
  - now rewrite String.eqb_refl.
  - destruct (String.eqb (label r) (label x)) eqn:E.
    + apply String.eqb_eq in E. elim Hx. rewrite <- E. now apply in_map.
    + now apply IH.
Qed.

(** With unique tickers the index-aligned assignment gives each row of
    [df_orig] the count computed from its own weight and price. *)
Lemma phase1_unique (df_orig : list merged_row) (total_amount : Q) :
  NoDup (map label df_orig) ->
  phase1 df_orig total_amount =
  (map (floored total_amount) (sort_values_desc final_wieght df_orig),
   map (floored total_amount) df_orig,
   total_amount
   - spent (map (floored total_amount) (sort_values_desc final_wieght df_orig))).
Proof.
  intros Hnd. unfold phase1. f_equal. f_equal.
  apply map_ext_in. intros r Hr. unfold floored. f_equal.
  apply series_at_own.
  - eapply Permutation_NoDup; [ | exact Hnd ].
    apply Permutation_map, sort_values_desc_perm.
  - eapply Permutation_in; [ apply sort_values_desc_perm | exact Hr ].
Qed.

Lemma phase1_consistent (df_orig : list merged_row) (total_amount : Q) :
  NoDup (map label df_orig) ->
  consistent (map (floored total_amount) (sort_values_desc final_wieght df_orig))
             (map (floored total_amount) df_orig).
Proof.
  intros Hnd. repeat split.
  - rewrite map_map. simpl. 
    eapply Permutation_NoDup; [ | exact Hnd ].
    apply (Permutation_map label), sort_values_desc_perm.
  - apply Permutation_map, Permutation_map, Permutation_sym, sort_values_desc_perm.
  - apply Forall_map, Forall_forall. intros r _. unfold has_shares. simpl. discriminate.
Qed.

Lemma spent_floored_perm (total_amount : Q) (a b : list merged_row) :
  Permutation a b ->
  spent (map (floored total_amount) a) == spent (map (floored total_amount) b).
Proof.
  intros Hp. unfold spent. apply Qsum_perm. now do 2 apply Permutation_map.
Qed.

(** The floor never commits more than the weighted share of the budget. *)
Lemma spent_floored_le (total_amount : Q) (l : list merged_row) :
  Forall (fun r => 0 < price r) l ->
  spent (map (floored total_amount) l)
  <= total_amount * Qsum (map final_wieght l).
Proof.
  intros Hl. unfold spent. rewrite map_map, <- Qsum_map_scale.
  apply Qsum_map_le. intros r Hr. rewrite Forall_forall in Hl.
  specialize (Hl r Hr).
  change (cell_cost (floored total_amount r))
    with (inject_Z (floor_shares total_amount r) * price r).
  unfold floor_shares.
  pose proof (Qfloor_le (total_amount * final_wieght r / price r)) as Fl.
  assert (total_amount * final_wieght r / price r * price r
          == total_amount * final_wieght r) as E by (field; lra).
  apply Qle_trans with (total_amount * final_wieght r / price r * price r).
  - apply Qmult_le_compat_r; lra.
  - rewrite E. apply Qle_refl.
Qed.

(** ** Fuel *)




Lemma Forall_price_df (P : Q -> Prop) (total_amount : Q) (l : list merged_row) :
  Forall (fun r => P (price r)) l ->
  Forall (fun r => P (price r))
         (map (floored total_amount) (sort_values_desc final_wieght l)).
Proof.
  intros Hl. apply Forall_map. apply Forall_forall. intros r Hr.
  rewrite Forall_forall in Hl. apply (Hl r).
  eapply Permutation_in; [ apply Permutation_sym, sort_values_desc_perm | exact Hr ].
Qed.

Lemma phase1_df (df_orig : list merged_row) (total_amount : Q) :
  fst (fst (phase1 df_orig total_amount))
  = map (floored total_amount) (sort_values_desc final_wieght df_orig).
Proof. reflexivity. Qed.

Lemma total_cost_project (o : list merged_row) :
  total_cost (map project o) = spent o.
Proof.
  unfold total_cost, spent. now rewrite map_map.
Qed.

(** ** Column lengths *)

Lemma sector_wieghts_col_length {F : Type} `{Arith F} (betas : list F) :
  List.length (sector_wieghts_col betas) = List.length betas.
Proof.
  unfold sector_wieghts_col, inverse_beta. now rewrite !length_map.
Qed.

(** * The claims *)

(** ** C1 *)

(** What the algorithm does when nothing is rounded.  With a positive
    budget, positive prices, final weights summing to at most 1 (and
    tickers that identify the candidates), the exact reading of
    [allocate_funds] returns, every candidate has a share count, and the
    counts times the prices sum to at most the budget: the floor and the
    strict comparisons are there to keep the cost within the budget. *)
Lemma exact_allocation_within_budget (df_orig : list merged_row) (B : Q) :
  NoDup (map label df_orig) ->
  0 < B ->
  Forall (fun r => 0 < price r) df_orig ->
  Qsum (map final_wieght df_orig) <= 1 ->
  exists fuel0, forall fuel, (fuel0 <= fuel)%nat ->
    exists res df_orig',
      allocate_funds fuel df_orig B = Some (res, df_orig') /\
      Forall (fun a => a_shares a <> None) res /\
      total_cost res <= B.
Proof.
  intros Hnd HB Hpos Hw.
  destruct (positive_prices_bounded_below df_orig Hpos) as (m & Hm & Hge).
  set (df := map (floored B) (sort_values_desc final_wieght df_orig)).
  set (o := map (floored B) df_orig).
  assert (Forall (fun r => m <= price r) df) as Hdf
    by (apply (Forall_price_df (fun p => m <= p)); exact Hge).
  assert (spent df <= B) as Hsp.
  { unfold df. rewrite <- (spent_floored_perm B _ _ (sort_values_desc_perm final_wieght df_orig)).
    pose proof (spent_floored_le B df_orig Hpos). nra. }
  exists (S (pass_bound (B - spent df) m)). intros fuel Hf.
  destruct (redistribute_terminates m df Hm Hdf _ o (B - spent df) 0%nat
              (pass_bound_covers _ m Hm) fuel ltac:(lia))
    as (o' & r' & n' & E & _).
  exists (map project o'), o'.
  unfold allocate_funds. rewrite (phase1_unique df_orig B Hnd).
  fold df. fold o. rewrite E. split; [ reflexivity | ].
  destruct (redistribute_sound m df Hm Hdf _ _ _ _ _ _ _ E
              (phase1_consistent df_orig B Hnd) ltac:(lra))
    as ((_ & _ & Hh) & Hs & Hr & _).
  split.
  - apply Forall_map. eapply Forall_impl; [ | exact Hh ]. intros r Hr'. exact Hr'.
  - rewrite total_cost_project.
    assert (spent o == spent df) as Eo
      by (apply spent_floored_perm, sort_values_desc_perm).
    lra.
Qed.

(** The run of float64.  A pass that leaves the frame and the residue as
    they were is followed by the same pass again. *)
Lemma float64_fixed_point (df o : list Binary64.row) (residue : spec_float) :
  Binary64.redistribute_pass df o residue = Some (o, residue) ->
  forall fuel n, Binary64.redistribute fuel df o residue n = None.
Proof.
  intros H fuel. induction fuel as [ | fuel IH ]; intros n; simpl;
    [ reflexivity | ].
  rewrite H. apply IH.
Qed.

(** Budget 1e17, one stock at 3 with weight 0.5: the residue 5e16 minus
    the price 3 rounds back to 5e16, so the stock stays affordable and the
    loop does not end. *)
Lemma float64_residue_absorbs_the_price :
  forall fuel, Binary64.allocate_funds fuel one_stock_at_3 budget_1e17 = None.
Proof.
  intros fuel. unfold Binary64.allocate_funds.
  destruct (Binary64.phase1 one_stock_at_3 budget_1e17) as [ [df o] r ] eqn:P.
  vm_compute in P. injection P as <- <- <-.
  destruct fuel as [ | fuel ]; [ reflexivity | ].
  cbn [Binary64.redistribute].
  match goal with
  | |- context [Binary64.redistribute_pass ?d ?o ?r] =>
      destruct (Binary64.redistribute_pass d o r) as [ [o1 r1] | ] eqn:P0
  end; [ | vm_compute in P0; discriminate ].
  vm_compute in P0. injection P0 as <- <-.
  apply float64_fixed_point. vm_compute. reflexivity.
Qed.

(** C1, on the failing input: budget 187 and one stock at 1.1 that carries
    the whole weight.  The exact quotient of 187 by the float64 price is
    below 170, the float64 quotient is 170.0, and [np.floor] keeps it: the
    call returns 170 shares, whose cost is above the budget, in float64
    and exactly, and the residue of line 106 is negative. *)
Theorem float64_allocation_overspends :
  exists df_orig' residue,
    Binary64.allocate_funds 1 one_stock_at_1_1 (Binary64.of_pos 187)
    = Some (df_orig', residue, 0%nat) /\
    map Binary64.shares df_orig' = [Some (Binary64.of_pos 170)] /\
    map Binary64.price df_orig' = [Binary64.of_ratio 11 10] /\
    SFltb residue (S754_zero false) = true /\
    SFltb (Binary64.of_pos 187)
          (Binary64.column_sum (map Binary64.cell_cost df_orig')) = true /\
    Binary64.to_Q (Binary64.of_pos 187)
    < Binary64.to_Q (Binary64.of_pos 170)
      * Binary64.to_Q (Binary64.of_ratio 11 10) /\
    Binary64.to_Q (Binary64.of_pos 187) / Binary64.to_Q (Binary64.of_ratio 11 10)
    < 170 /\
    SFdiv Binary64.prec Binary64.emax
      (SFmul Binary64.prec Binary64.emax (Binary64.of_pos 187) Binary64.one)
      (Binary64.of_ratio 11 10)
    = Binary64.of_pos 170.
Proof.
  destruct (Binary64.allocate_funds 1 one_stock_at_1_1 (Binary64.of_pos 187))
    as [ [ [o r] n ] | ] eqn:E; [ | vm_compute in E; discriminate ].
  vm_compute in E. injection E as <- <- <-.
  eexists. eexists. split; [ reflexivity | ].
  repeat split; vm_compute; reflexivity.
Qed.

(** ** C2 *)


(** What the loop does when nothing is rounded: when every price is at
    least some [m > 0] the exact reading of the loop terminates, and the
    number of its passes is at most the Phase-1 residue divided by [m],
    rounded up.  In float64 the subtraction of line 122 can round back to
    the residue ([float64_residue_absorbs_the_price]). *)
Lemma exact_redistribution_terminates (df_orig : list merged_row) (B m : Q) :
  NoDup (map label df_orig) ->
  0 < m ->
  Forall (fun r => m <= price r) df_orig ->
  forall fuel, (pass_bound (snd (phase1 df_orig B)) m < fuel)%nat ->
    exists o' residue' n,
      redistribute fuel (fst (fst (phase1 df_orig B)))
                   (snd (fst (phase1 df_orig B))) (snd (phase1 df_orig B)) 0
      = Some (o', residue', n) /\
      (n <= pass_bound (snd (phase1 df_orig B)) m)%nat.
Proof.
  intros _ Hm Hge fuel Hf.
  apply (redistribute_terminates m _ Hm) with (k := pass_bound (snd (phase1 df_orig B)) m).
  - rewrite phase1_df. apply (Forall_price_df (fun p => m <= p)). exact Hge.
  - apply pass_bound_covers, Hm.
  - exact Hf.
Qed.




(** ** C3 *)

(** C3, refuted as stated: betas 0.0 and 1.0.  The inverse of 0.0 is +inf,
    the sum of the inverses is +inf, and the statement returns the weights
    NaN and 0.0; nothing is raised. *)
Lemma zero_beta_returns_weights :
  Binary64.is_zero (S754_zero false) = true /\
  Binary64.sector_wieghts [S754_zero false; Binary64.of_pos 1]
  = Binary64.Returned [S754_nan; S754_zero false] /\
  Binary64.sector_wieghts [S754_zero false; Binary64.of_pos 1]
  <> Binary64.Raised Binary64.ZeroDivisionError.
Proof.
  split; [ reflexivity | ]. split; [ vm_compute; reflexivity | discriminate ].
Qed.

Lemma add_absorbs_l (acc x : spec_float) :
  inf_or_nan acc = true ->
  inf_or_nan (SFadd Binary64.prec Binary64.emax acc x) = true.
Proof.
  destruct acc as [ s | s | | s m e ], x as [ s' | s' | | s' m' e' ]; simpl;
    try discriminate; try reflexivity; destruct s, s'; reflexivity.
Qed.

Lemma add_absorbs_r (acc x : spec_float) :
  is_inf x = true ->
  inf_or_nan (SFadd Binary64.prec Binary64.emax acc x) = true.
Proof.
  destruct acc as [ s | s | | s m e ], x as [ s' | s' | | s' m' e' ]; simpl;
    try discriminate; try reflexivity; destruct s, s'; reflexivity.
Qed.

Lemma sum_stays_inf_or_nan (l : list spec_float) (acc : spec_float) :
  inf_or_nan acc = true ->
  inf_or_nan
    (fold_left (fun a x => if Binary64.is_nan x then a
                           else SFadd Binary64.prec Binary64.emax a x) l acc)
  = true.
Proof.
  revert acc. induction l as [ | x l IH ]; intros acc Ha; simpl; [ exact Ha | ].
  apply IH. destruct (Binary64.is_nan x); [ exact Ha | now apply add_absorbs_l ].
Qed.

Lemma sum_with_inf (l : list spec_float) :
  Exists (fun x => is_inf x = true) l ->
  forall acc,
  inf_or_nan
    (fold_left (fun a x => if Binary64.is_nan x then a
                           else SFadd Binary64.prec Binary64.emax a x) l acc)
  = true.
Proof.
  induction 1 as [ x l Hx | x l _ IH ]; intros acc; simpl.
  - apply sum_stays_inf_or_nan.
    assert (Binary64.is_nan x = false) as -> by (now destruct x).
    now apply add_absorbs_r.
  - apply IH.
Qed.

Lemma inverse_of_zero (b : spec_float) :
  Binary64.is_zero b = true ->
  is_inf (SFdiv Binary64.prec Binary64.emax (SFone Binary64.prec Binary64.emax) b)
  = true.
Proof.
  destruct b as [ s | s | | s m e ]; try discriminate. intros _. reflexivity.
Qed.

Lemma div_by_inf_or_nan (x t : spec_float) :
  inf_or_nan t = true ->
  Binary64.is_nan (SFdiv Binary64.prec Binary64.emax x t)
  || Binary64.is_zero (SFdiv Binary64.prec Binary64.emax x t) = true /\
  (is_inf x = true -> SFdiv Binary64.prec Binary64.emax x t = S754_nan).
Proof.
  destruct t as [ s | s | | s m e ], x as [ s' | s' | | s' m' e' ]; simpl;
    try discriminate; intros _; split; try reflexivity; discriminate.
Qed.

(** C3, amended: on a float64 column in which some average beta is a zero,
    lines 49-50 return normally; the weight of every such sector is NaN and
    every other weight is NaN or a zero. *)
Theorem zero_beta_yields_nan_weights (avg_betas : list spec_float) :
  Exists (fun b => Binary64.is_zero b = true) avg_betas ->
  exists ws,
    Binary64.sector_wieghts avg_betas = Binary64.Returned ws /\
    List.length ws = List.length avg_betas /\
    (forall i b, nth_error avg_betas i = Some b ->
                 Binary64.is_zero b = true ->
                 nth_error ws i = Some S754_nan) /\
    Forall (fun w => Binary64.is_nan w || Binary64.is_zero w = true) ws.
Proof.
  intros Hz. eexists. split; [ reflexivity | ].
  split; [ apply sector_wieghts_col_length | ].
  unfold sector_wieghts_col.
  set (inv := inverse_beta avg_betas).
  assert (inf_or_nan (series_sum inv) = true) as Ht.
  { unfold series_sum. apply sum_with_inf. unfold inv, inverse_beta.
    apply Exists_exists in Hz. destruct Hz as (b & Hb & Zb).
    apply Exists_exists. exists (f_div f_one b). split.
    - now apply in_map.
    - now apply inverse_of_zero. }
  split.
  - intros i b Hi Zb. unfold inv, inverse_beta.
    rewrite !nth_error_map, Hi. simpl. f_equal.
    apply (div_by_inf_or_nan _ _ Ht). now apply inverse_of_zero.
  - apply Forall_map, Forall_forall. intros x _.
    apply (div_by_inf_or_nan x _ Ht).
Qed.

Lemma zero_beta_yields_nan_weights_witness :
  exists ws,
    Binary64.sector_wieghts [S754_zero false; Binary64.of_pos 1]
    = Binary64.Returned ws /\
    List.length ws = 2%nat /\
    (forall i b, nth_error [S754_zero false; Binary64.of_pos 1] i = Some b ->
                 Binary64.is_zero b = true ->
                 nth_error ws i = Some S754_nan) /\
    Forall (fun w => Binary64.is_nan w || Binary64.is_zero w = true) ws.
Proof.
  apply (zero_beta_yields_nan_weights [S754_zero false; Binary64.of_pos 1]).
  left. reflexivity.
Defined.

(** ** C4 *)

Lemma NoDup_map_inj {A B : Type} (f : A -> B) (l : list A) (a b : A) :
  NoDup (map f l) -> In a l -> In b l -> f a = f b -> a = b.
Proof.
  induction l as [ | x l IH ]; intros Hnd Ha Hb E; simpl in *; [ contradiction | ].
  inversion Hnd as [ | ? ? Hx Hl ]; subst.
  destruct Ha as [ -> | Ha ], Hb as [ -> | Hb ].
  - reflexivity.
  - elim Hx. rewrite E. now apply in_map.
  - elim Hx. rewrite <- E. now apply in_map.
  - now apply IH.
Qed.

(** A label names one price, in [df] and in [df_orig] alike. *)
Lemma label_price_unique (df o : list merged_row) (k r : merged_row) :
  NoDup (map label df) -> Permutation (map tp df) (map tp o) ->
  In k df -> In r o -> label k = label r -> price k = price r.
Proof.
  intros Hnd Hp Hk Hr E.
  assert (In (tp r) (map tp df)) as Hin
    by (eapply Permutation_in; [ apply Permutation_sym, Hp | now apply in_map ]).
  apply in_map_iff in Hin. destruct Hin as (k' & Ek' & Hk').
  assert (k = k') as ->.
  { apply (NoDup_map_inj label df); try assumption.
    injection Ek' as El _. congruence. }
  now injection Ek'.
Qed.

Lemma bump_untouched (K o : list merged_row) (i : nat) (r : merged_row) :
  nth_error o i = Some r ->
  isin (label r) (map label K) = false ->
  nth_error (bump K o) i = Some r.
Proof.
  intros Hi Hn. unfold bump. rewrite nth_error_map, Hi. simpl. now rewrite Hn.
Qed.

Lemma redistribute_pass_skips (df o o' : list merged_row) (residue residue' : Q)
  (i : nat) (r : merged_row) :
  NoDup (map label df) -> Permutation (map tp df) (map tp o) ->
  redistribute_pass df o residue = Some (o', residue') ->
  nth_error o i = Some r -> residue <= price r ->
  nth_error o' i = Some r.
Proof.
  intros Hnd Hp E Hi Hr.
  destruct (redistribute_pass_spec _ _ _ _ _ E) as (_ & Hs & HK & -> & _).
  apply bump_untouched; [ exact Hi | ].
  apply isin_not_In. intros Hin. apply in_map_iff in Hin.
  destruct Hin as (k & Ek & Hk).
  rewrite Forall_forall in HK. specialize (HK k Hk).
  rewrite (label_price_unique df o k r Hnd Hp) in HK; try assumption.
  - lra.
  - eapply subseq_In; eassumption.
  - eapply nth_error_In; eassumption.
Qed.

Lemma redistribute_skips (m : Q) (df : list merged_row) (i : nat) (r : merged_row) :
  0 < m -> Forall (fun x => m <= price x) df -> NoDup (map label df) ->
  forall fuel o residue n o' residue' n',
    Permutation (map tp df) (map tp o) ->
    redistribute fuel df o residue n = Some (o', residue', n') ->
    nth_error o i = Some r -> residue <= price r ->
    nth_error o' i = Some r.
Proof.
  intros Hm Hdf Hnd.
  induction fuel as [ | fuel IH ]; intros o residue n o' residue' n' Hp E Hi Hr;
    simpl in E; [ discriminate | ].
  destruct (redistribute_pass df o residue) as [ [o1 r1] | ] eqn:P.
  - destruct (redistribute_pass_step m df o o1 residue r1 Hm Hdf P)
      as (_ & Hle & Htp & _).
    apply (IH _ _ _ _ _ _ (eq_ind_r (fun l => Permutation _ l) Hp Htp) E).
    + eapply redistribute_pass_skips; eassumption.
    + lra.
  - injection E as <- _ _. exact Hi.
Qed.

(** C4. While the residue equals the price of a candidate, a pass of
    Phase 2 does not buy it: its row of [df_orig] is the same after the
    pass.  When moreover the prices are bounded below by some [m > 0] the
    residue never grows again and the row is still the same when the loop
    returns.  (Tickers identify the candidates.) *)
Theorem price_equal_to_residue_never_bought (df o : list merged_row)
  (residue : Q) (i : nat) (r : merged_row) :
  NoDup (map label df) -> Permutation (map tp df) (map tp o) ->
  nth_error o i = Some r ->
  price r == residue ->
  (forall o' residue',
     redistribute_pass df o residue = Some (o', residue') ->
     nth_error o' i = Some r) /\
  (forall m fuel n o' residue' n',
     0 < m -> Forall (fun x => m <= price x) df ->
     redistribute fuel df o residue n = Some (o', residue', n') ->
     nth_error o' i = Some r).
Proof.
  intros Hnd Hp Hi Hr. split.
  - intros o' residue' E.
    apply (redistribute_pass_skips df o o' residue residue' i r Hnd Hp E Hi).
    lra.
  - intros m fuel n o' residue' n' Hm Hdf E.
    apply (redistribute_skips m df i r Hm Hdf Hnd _ _ _ _ _ _ _ Hp E Hi).
    lra.
Qed.

Lemma price_equal_to_residue_never_bought_witness :
  option_map (fun x => (nth_error (fst (fst x)) 0, map shares (fst (fst x))))
    (redistribute 5 (fst (fst (phase1 residue_300 1000)))
                  (snd (fst (phase1 residue_300 1000)))
                  (snd (phase1 residue_300 1000)) 0)
  = Some (Some (floored 1000 (candidate "A" 300 (1#2))),
          [Some 1%Z; Some 6%Z]).
Proof.
  assert (exists o' residue' n',
    redistribute 5 (fst (fst (phase1 residue_300 1000)))
                 (snd (fst (phase1 residue_300 1000)))
                 (snd (phase1 residue_300 1000)) 0 = Some (o', residue', n')
    /\ map shares o' = [Some 1%Z; Some 6%Z]) as (o' & residue' & n' & E & S).
  { vm_compute. do 3 eexists. split; reflexivity. }
  rewrite E. cbn [option_map fst snd]. rewrite S. f_equal. f_equal.
  refine (proj2 (price_equal_to_residue_never_bought
                   (fst (fst (phase1 residue_300 1000)))
                   (snd (fst (phase1 residue_300 1000)))
                   (snd (phase1 residue_300 1000)) 0
                   (floored 1000 (candidate "A" 300 (1#2))) _ _ _ _)
                100 5%nat 0%nat o' residue' n' _ _ E).
  - repeat constructor; simpl; intuition discriminate.
  - reflexivity.
  - reflexivity.
  - reflexivity.
  - reflexivity.
  - repeat constructor; simpl; discriminate.
Defined.

(** Scenario C on its own: one candidate priced 300, residue exactly 300;
    the loop breaks at once and the count stays at the Phase-1 floor. *)
Example scenario_C :
  snd (phase1 [candidate "A" 300 (1#2)] 600) == 300 /\
  option_map (fun x => counts (fst x))
    (allocate_funds 1 [candidate "A" 300 (1#2)] 600)
  = Some [("A", Some 1%Z)].
Proof. split; vm_compute; reflexivity. Qed.

(** ** Sums and quotients that round

    The error analysis of a normalising line: a sum of positive values
    computed with rounding is within a factor of the exact sum, and so are
    the quotients by it and their sum. *)

Lemma Qnat_S (k : nat) : Qnat (S k) == Qnat k + 1.
Proof.
  unfold Qnat. rewrite Nat2Z.inj_succ, <- Z.add_1_r, inject_Z_plus. reflexivity.
Qed.

Lemma Qnat_nonneg (k : nat) : 0 <= Qnat k.
Proof. unfold Qnat. rewrite <- (Zle_Qle 0). lia. Qed.

Lemma Qnat_le (j k : nat) : (j <= k)%nat -> Qnat j <= Qnat k.
Proof. intros H. unfold Qnat. rewrite <- Zle_Qle. lia. Qed.

Lemma Qmult_le_compat_l_nonneg (z x y : Q) : 0 <= z -> x <= y -> z * x <= z * y.
Proof.
  intros Hz Hxy. rewrite (Qmult_comm z x), (Qmult_comm z y).
  now apply Qmult_le_compat_r.
Qed.

Lemma rounded_step_upper (u K A acc x : Q) :
  0 <= u -> 0 <= K -> 0 <= A -> 0 <= x -> 2 * (K + 1) * u <= 1 ->
  acc <= (1 + 2 * K * u) * A ->
  (1 + u) * (acc + x) <= (1 + 2 * (K + 1) * u) * (A + x).
Proof.
  intros Hu HK HA Hx H1 Hacc.
  assert (0 <= K * u) by (apply Qmult_le_0_compat; assumption).
  assert (0 <= K * u * A) by (apply Qmult_le_0_compat; assumption).
  assert (0 <= K * u * x) by (apply Qmult_le_0_compat; assumption).
  assert (0 <= u * A) by (apply Qmult_le_0_compat; assumption).
  assert (0 <= u * x) by (apply Qmult_le_0_compat; assumption).
  assert ((1 + u) * acc <= (1 + u) * ((1 + 2 * K * u) * A)).
  { apply Qmult_le_l; [ lra | exact Hacc ]. }
  assert (2 * K * u * (u * A) <= 1 * (u * A)).
  { apply Qmult_le_compat_r; [ lra | assumption ]. }
  nra.
Qed.

Lemma rounded_step_lower (u K A acc x : Q) :
  0 <= u -> 0 <= K -> 0 <= A -> 0 <= x -> 2 * (K + 1) * u <= 1 ->
  (1 - K * u) * A <= acc ->
  (1 - (K + 1) * u) * (A + x) <= (1 - u) * (acc + x).
Proof.
  intros Hu HK HA Hx H1 Hacc.
  assert (0 <= K * u) by (apply Qmult_le_0_compat; assumption).
  assert (0 <= K * u * x) by (apply Qmult_le_0_compat; assumption).
  assert (0 <= K * u * (u * A)).
  { apply Qmult_le_0_compat; [ assumption | apply Qmult_le_0_compat; assumption ]. }
  assert ((1 - u) * ((1 - K * u) * A) <= (1 - u) * acc).
  { apply Qmult_le_l; [ lra | exact Hacc ]. }
  nra.
Qed.

Lemma partial_sum_in_range (a b u K A acc x lo hi : Q) :
  0 <= u -> 0 <= K -> 0 <= A -> 2 * (K + 1) * u <= 1 ->
  (1 - K * u) * A <= acc <= (1 + 2 * K * u) * A ->
  0 <= a -> lo <= a -> a <= x <= b -> A <= K * b -> 2 * (K + 1) * b <= hi ->
  lo <= acc + x <= hi.
Proof.
  intros Hu HK HA H1 (L & U) Ha Hlo (Hx1 & Hx2) HAb Hhi.
  assert (0 <= K * u) by (apply Qmult_le_0_compat; assumption).
  assert (0 <= (1 - K * u) * A) by (apply Qmult_le_0_compat; lra).
  assert (2 * K * u * A <= 1 * A) by (apply Qmult_le_compat_r; lra).
  split; nra.
Qed.

Lemma rounded_fold_bounds (rnd : Q -> Q) (a b : Q) (l : list Q) :
  rounds_to_nearest rnd ->
  forall (k : nat) (acc A : Q),
  0 < a -> smallest_normal <= a ->
  Forall (fun x => a <= x <= b) l ->
  0 <= A -> A <= Qnat k * b ->
  (1 - Qnat k * unit_roundoff) * A <= acc
  <= (1 + 2 * Qnat k * unit_roundoff) * A ->
  2 * Qnat (k + List.length l) * unit_roundoff <= 1 ->
  2 * Qnat (k + List.length l) * b <= largest_power ->
  (1 - Qnat (k + List.length l) * unit_roundoff) * (A + Qsum l)
  <= fold_left (fun acc x => rnd (acc + x)) l acc
  <= (1 + 2 * Qnat (k + List.length l) * unit_roundoff) * (A + Qsum l).
Proof.
  intros Hrnd.
  induction l as [ | x l IH ]; intros k acc A Ha Hlo Hl HA HAb Hacc Hu Hhi.
  - simpl. rewrite Nat.add_0_r. assert (A + 0 == A) as -> by ring. exact Hacc.
  - inversion Hl as [ | ? ? Hx Hl' ]; subst.
    cbn [fold_left Qsum fold_right List.length] in *.
    assert (H0u : 0 <= unit_roundoff) by (unfold unit_roundoff; discriminate).
    assert (Hk := Qnat_nonneg k).
    assert (HkS : Qnat (k + S (List.length l)) == Qnat (S k + List.length l))
      by (now rewrite Nat.add_succ_r).
    assert (Hmono : Qnat k + 1 <= Qnat (k + S (List.length l))).
    { rewrite <- Qnat_S. apply Qnat_le. lia. }
    assert (0 <= b) by lra.
    assert (Hku : 2 * (Qnat k + 1) * unit_roundoff <= 1).
    { eapply Qle_trans; [ | exact Hu ]. apply Qmult_le_compat_r; lra. }
    assert (Hkb : 2 * (Qnat k + 1) * b <= largest_power).
    { eapply Qle_trans; [ | exact Hhi ]. apply Qmult_le_compat_r; lra. }
    assert (Hrange : smallest_normal <= acc + x <= largest_power).
    { apply (partial_sum_in_range a b unit_roundoff (Qnat k) A);
        try assumption; lra. }
    destruct (Hrnd _ Hrange) as (R1 & R2).
    setoid_replace (A + (x + Qsum l)) with ((A + x) + Qsum l) by ring.
    rewrite HkS.
    apply (IH (S k) (rnd (acc + x)) (A + x)); try assumption.
    + lra.
    + rewrite Qnat_S. nra.
    + rewrite Qnat_S. split.
      * eapply Qle_trans; [ | exact R1 ].
        apply rounded_step_lower; try assumption; lra.
      * eapply Qle_trans; [ exact R2 | ].
        apply rounded_step_upper; try assumption; lra.
    + now rewrite <- HkS.
    + now rewrite <- HkS.
Qed.

Lemma rounded_sum_bounds (rnd : Q -> Q) (a b : Q) (l : list Q) :
  rounds_to_nearest rnd ->
  0 < a -> smallest_normal <= a ->
  Forall (fun x => a <= x <= b) l ->
  2 * Qnat (List.length l) * unit_roundoff <= 1 ->
  2 * Qnat (List.length l) * b <= largest_power ->
  (1 - Qnat (List.length l) * unit_roundoff) * Qsum l
  <= rounded_sum rnd l
  <= (1 + 2 * Qnat (List.length l) * unit_roundoff) * Qsum l.
Proof.
  intros Hrnd Ha Hlo Hl Hu Hhi.
  pose proof (rounded_fold_bounds rnd a b l Hrnd 0 0 0 Ha Hlo Hl) as F.
  cbn [Nat.add] in F.
  assert (0 + Qsum l == Qsum l) as E by ring.
  rewrite E in F.
  change (rounded_sum rnd l)
    with (fold_left (fun acc x => rnd (acc + x)) l 0).
  apply F; try assumption.
  - lra.
  - change (Qnat 0) with 0. lra.
  - change (Qnat 0) with 0. lra.
Qed.

Lemma Qsum_between (a b : Q) (l : list Q) :
  Forall (fun x => a <= x <= b) l ->
  Qnat (List.length l) * a <= Qsum l <= Qnat (List.length l) * b.
Proof.
  induction 1 as [ | x l Hx _ IH ].
  - change (0 * a <= 0 <= 0 * b). lra.
  - cbn [List.length Qsum fold_right]. rewrite Qnat_S. fold (Qsum l). nra.
Qed.

Lemma Qsum_ge_member (l : list Q) (v : Q) :
  Forall (fun x => 0 <= x) l -> In v l -> v <= Qsum l.
Proof.
  induction 1 as [ | x l Hx Hl IH ]; intros Hin; [ contradiction | ].
  pose proof (Qsum_nonneg l Hl).
  cbn [Qsum fold_right]. fold (Qsum l).
  destruct Hin as [ -> | Hin ]; [ lra | specialize (IH Hin); lra ].
Qed.

Lemma Qsum_map_between {A : Type} (f g h : A -> Q) (l : list A) :
  (forall x, In x l -> f x <= g x <= h x) ->
  Qsum (map f l) <= Qsum (map g l) <= Qsum (map h l).
Proof.
  induction l as [ | x l IH ]; intros H; simpl; [ lra | ].
  fold (Qsum (map f l)) (Qsum (map g l)) (Qsum (map h l)).
  assert (f x <= g x <= h x) by (apply H; now left).
  assert (Qsum (map f l) <= Qsum (map g l) <= Qsum (map h l))
    by (apply IH; intros; apply H; now right).
  lra.
Qed.

Lemma Qsum_map_scaled_quotient (c S : Q) (l : list Q) :
  Qsum (map (fun v => c * (v / S)) l) == c * (Qsum l / S).
Proof.
  induction l as [ | x l IH ]; simpl.
  - unfold Qdiv. ring.
  - fold (Qsum l) (Qsum (map (fun v => c * (v / S)) l)). rewrite IH.
    unfold Qdiv. ring.
Qed.

Section Normalise.
Variable rnd : Q -> Q.
Variables a b : Q.
Variable values : list Q.
Hypothesis Hrnd : rounds_to_nearest rnd.
Hypothesis Hscaled : well_scaled a b values.

Lemma count_at_least_one : 1 <= Qnat (List.length values).
Proof.
  destruct Hscaled as (_ & _ & Hne & _).
  destruct values; [ now elim Hne | ].
  unfold Qnat. rewrite <- (Zle_Qle 1). simpl. lia.
Qed.

Lemma count_roundoff_small :
  0 <= Qnat (List.length values) * unit_roundoff <= 1 # 9007199254.
Proof.
  destruct Hscaled as (_ & _ & _ & Hn & _).
  pose proof count_at_least_one. unfold unit_roundoff. split; lra.
Qed.

Lemma exact_sum_bounds :
  Qnat (List.length values) * a <= Qsum values
  <= Qnat (List.length values) * b.
Proof. apply Qsum_between. apply Hscaled. Qed.

Lemma exact_sum_positive : 0 < Qsum values.
Proof.
  destruct Hscaled as (Ha & _). pose proof exact_sum_bounds as (L & _).
  pose proof count_at_least_one. nra.
Qed.

Lemma total_bounds :
  (1 - Qnat (List.length values) * unit_roundoff) * Qsum values
  <= rounded_sum rnd values
  <= (1 + 2 * (Qnat (List.length values) * unit_roundoff)) * Qsum values.
Proof.
  destruct Hscaled as (Ha & HV & Hne & Hn & Hloa & Hlo & Hhi).
  pose proof count_roundoff_small as (Q0 & Q1).
  assert (E : 2 * (Qnat (List.length values) * unit_roundoff)
              == 2 * Qnat (List.length values) * unit_roundoff) by ring.
  rewrite E.
  apply (rounded_sum_bounds rnd a b); try assumption. lra.
Qed.

Lemma total_positive : 0 < rounded_sum rnd values.
Proof.
  pose proof count_roundoff_small as (Q0 & Q1).
  pose proof total_bounds as (L & _). pose proof exact_sum_positive.
  assert (0 < (1 - Qnat (List.length values) * unit_roundoff) * Qsum values)
    by (apply Qmult_lt_0_compat; lra).
  lra.
Qed.

Lemma quotient_in_range (v : Q) :
  In v values ->
  2 * smallest_normal <= v / rounded_sum rnd values <= 2.
Proof.
  intros Hin.
  destruct Hscaled as (Ha & HV & Hne & Hn & Hloa & Hlo & Hhi).
  pose proof count_roundoff_small as (Q0 & Q1).
  pose proof total_bounds as (L & U).
  pose proof exact_sum_bounds as (L' & U').
  pose proof count_at_least_one. pose proof total_positive.
  pose proof exact_sum_positive.
  assert (Hv : a <= v <= b) by (rewrite Forall_forall in HV; now apply HV).
  assert (v <= Qsum values).
  { apply Qsum_ge_member; [ | exact Hin ].
    eapply Forall_impl; [ | exact HV ]. simpl. intros; lra. }
  set (n := Qnat (List.length values)) in *.
  set (S := rounded_sum rnd values) in *.
  assert (n * unit_roundoff * Qsum values <= (1 # 2) * Qsum values)
    by (apply Qmult_le_compat_r; lra).
  assert (0 <= smallest_normal) by (unfold smallest_normal; discriminate).
  split.
  - apply Qle_shift_div_l; [ assumption | ].
    assert (S <= 2 * (n * b)) by nra.
    assert (smallest_normal * S <= smallest_normal * (2 * (n * b)))
      by (apply Qmult_le_compat_l_nonneg; assumption).
    nra.
  - apply Qle_shift_div_r; [ assumption | ]. nra.
Qed.

Lemma quotient_bounds (v : Q) :
  In v values ->
  (1 - unit_roundoff) * (v / rounded_sum rnd values)
  <= rnd (v / rounded_sum rnd values)
  <= (1 + unit_roundoff) * (v / rounded_sum rnd values).
Proof.
  intros Hin. apply Hrnd. destruct (quotient_in_range v Hin) as (L & U).
  assert (0 <= smallest_normal) by (unfold smallest_normal; discriminate).
  split; [ lra | ].
  eapply Qle_trans; [ exact U | ]. unfold largest_power. discriminate.
Qed.

Lemma normalise_eq :
  normalise rnd values
  = map (fun v => rnd (v / rounded_sum rnd values)) values.
Proof. reflexivity. Qed.

Lemma normalise_in_range :
  Forall (fun w => smallest_normal <= w <= 4) (normalise rnd values).
Proof.
  rewrite normalise_eq. apply Forall_map, Forall_forall. intros v Hin.
  destruct (quotient_in_range v Hin) as (L & U).
  destruct (quotient_bounds v Hin) as (L' & U').
  assert (0 <= smallest_normal) by (unfold smallest_normal; discriminate).
  unfold unit_roundoff in *. split; nra.
Qed.

Lemma ratio_bounds :
  (1 - Qnat (List.length values) * unit_roundoff)
  * (Qsum values / rounded_sum rnd values) <= 1 /\
  1 <= (1 + 2 * (Qnat (List.length values) * unit_roundoff))
       * (Qsum values / rounded_sum rnd values).
Proof.
  pose proof total_bounds as (L & U). pose proof total_positive as HS.
  assert (E : forall c, c * (Qsum values / rounded_sum rnd values)
                        == (c * Qsum values) / rounded_sum rnd values)
    by (intros; unfold Qdiv; ring).
  rewrite !E. split.
  - apply Qle_shift_div_r; [ assumption | lra ].
  - apply Qle_shift_div_l; [ assumption | lra ].
Qed.

Lemma exact_sum_of_normalised :
  (1 - unit_roundoff) * (Qsum values / rounded_sum rnd values)
  <= Qsum (normalise rnd values)
  <= (1 + unit_roundoff) * (Qsum values / rounded_sum rnd values).
Proof.
  rewrite <- !Qsum_map_scaled_quotient. rewrite normalise_eq.
  apply Qsum_map_between. intros v Hin. apply quotient_bounds, Hin.
Qed.

Lemma rounded_sum_of_normalised :
  (1 - Qnat (List.length values) * unit_roundoff) * Qsum (normalise rnd values)
  <= rounded_sum rnd (normalise rnd values)
  <= (1 + 2 * (Qnat (List.length values) * unit_roundoff))
     * Qsum (normalise rnd values).
Proof.
  destruct Hscaled as (Ha & HV & Hne & Hn & Hloa & Hlo & Hhi).
  pose proof count_roundoff_small as (Q0 & Q1).
  assert (EW : List.length (normalise rnd values) = List.length values)
    by (rewrite normalise_eq; apply length_map).
  rewrite <- EW.
  assert (E : 2 * (Qnat (List.length (normalise rnd values)) * unit_roundoff)
              == 2 * Qnat (List.length (normalise rnd values)) * unit_roundoff)
    by ring.
  rewrite E.
  apply (rounded_sum_bounds rnd smallest_normal 4); try assumption.
  - unfold smallest_normal. reflexivity.
  - apply Qle_refl.
  - apply normalise_in_range.
  - rewrite EW. lra.
  - rewrite EW. unfold largest_power. lra.
Qed.

Lemma normalised_sum_close_to_one :
  Qabs (Qsum (normalise rnd values) - 1) <= tolerance /\
  Qabs (rounded_sum rnd (normalise rnd values) - 1) <= tolerance.
Proof.
  pose proof count_roundoff_small as (Q0 & Q1).
  pose proof ratio_bounds as (R1 & R2).
  pose proof exact_sum_of_normalised as (W1 & W2).
  pose proof rounded_sum_of_normalised as (T1 & T2).
  assert (Hr : 0 <= Qsum values / rounded_sum rnd values).
  { apply Qle_shift_div_l; [ apply total_positive | ].
    pose proof exact_sum_positive. lra. }
  set (r := Qsum values / rounded_sum rnd values) in *.
  set (q := Qnat (List.length values) * unit_roundoff) in *.
  set (W := Qsum (normalise rnd values)) in *.
  set (T := rounded_sum rnd (normalise rnd values)) in *.
  assert (Hqr : 0 <= q * r) by (apply Qmult_le_0_compat; assumption).
  assert (q * r <= (1 # 9007199254) * r) by (apply Qmult_le_compat_r; lra).
  clearbody r q W T. unfold tolerance, unit_roundoff in *.
  assert (Wl : 1 - (1 # 1000000000) <= W) by nra.
  assert (Wu : W <= 1 + (1 # 1000000000)) by nra.
  assert (0 <= W) by lra.
  assert (Hqw : 0 <= q * W) by (apply Qmult_le_0_compat; assumption).
  assert (q * W <= (1 # 9007199254) * W) by (apply Qmult_le_compat_r; lra).
  split; apply Qabs_Qle_condition; split; nra.
Qed.
End Normalise.

(** ** C5 *)

Lemma series_sum_Q_from (l : list Q) (acc : Q) :
  fold_left (fun a x => if f_isnan x then a else f_add a x) l acc
  == acc + Qsum l.
Proof.
  revert acc. induction l as [ | x l IH ]; intros acc; simpl.
  - ring.
  - rewrite IH. ring.
Qed.

Lemma series_sum_Q (l : list Q) : series_sum l == Qsum l.
Proof.
  unfold series_sum. rewrite series_sum_Q_from. simpl. ring.
Qed.

Lemma Qsum_map_div (t : Q) (l : list Q) :
  Qsum (map (fun x => x / t) l) == Qsum l / t.
Proof.
  induction l as [ | x l IH ]; simpl.
  - unfold Qdiv. ring.
  - rewrite IH. unfold Qdiv. ring.
Qed.

(** C5, refuted as stated: betas 1 and -1 are defined and non-zero, their
    inverses cancel, and the weights do not sum to 1.  In binary64 the two
    weights are +inf and -inf and their sum is NaN. *)
Lemma cancelling_betas_break_normalisation :
  Forall (fun b => ~ b == 0) [1; -1] /\
  ~ Qsum (sector_wieghts_col [1; -1]) == 1 /\
  Binary64.sector_wieghts [Binary64.of_pos 1; SFopp (Binary64.of_pos 1)]
  = Binary64.Returned [S754_infinity false; S754_infinity true] /\
  Binary64.column_sum [S754_infinity false; S754_infinity true] = S754_nan.
Proof.
  split; [ repeat constructor; discriminate | ].
  split; [ vm_compute; discriminate | ].
  split; vm_compute; reflexivity.
Qed.

(** In exact arithmetic: when the inverse betas do not sum to zero, the
    sector weights sum to 1. *)
Lemma exact_sector_wieghts_sum_to_one (avg_betas : list Q) :
  Forall (fun b => ~ b == 0) avg_betas ->
  ~ Qsum (inverse_beta avg_betas) == 0 ->
  Qsum (sector_wieghts_col avg_betas) == 1.
Proof.
  intros _ Hne. unfold sector_wieghts_col.
  change (Qsum (map (fun x => x / series_sum (inverse_beta avg_betas))
                    (inverse_beta avg_betas)) == 1).
  rewrite Qsum_map_div, series_sum_Q. field. exact Hne.
Qed.

(** Positive betas are one case in which the inverses cannot cancel. *)
Lemma positive_betas_do_not_cancel (avg_betas : list Q) :
  avg_betas <> [] -> Forall (fun b => 0 < b) avg_betas ->
  0 < Qsum (inverse_beta avg_betas).
Proof.
  intros Hne Hp. destruct Hp as [ | b l Hb Hl ]; [ now elim Hne | ].
  simpl. assert (0 <= Qsum (inverse_beta l)) as Hs.
  { clear Hne. induction Hl as [ | c l Hc Hl IH ]; simpl; [ lra | ].
    pose proof (Qinv_lt_0_compat _ Hc). unfold Qdiv. lra. }
  pose proof (Qinv_lt_0_compat _ Hb). unfold Qdiv. lra.
Qed.

Lemma round_up_rounds_to_nearest : rounds_to_nearest round_up.
Proof.
  intros x (Hlo & _). unfold round_up.
  assert (0 <= x).
  { eapply Qle_trans; [ | exact Hlo ]. unfold smallest_normal. discriminate. }
  unfold unit_roundoff. split; lra.
Qed.

Lemma inverse_in_range (rnd : Q -> Q) (beta : Q) :
  rounds_to_nearest rnd ->
  magnitude_lo <= beta <= magnitude_hi ->
  (1 # 2) * magnitude_lo <= rnd (1 / beta) <= 2 * magnitude_hi.
Proof.
  intros Hrnd (L & U).
  assert (0 < beta).
  { eapply Qlt_le_trans; [ | exact L ]. unfold magnitude_lo. reflexivity. }
  assert (magnitude_lo <= 1 / beta <= magnitude_hi) as (L' & U').
  { split.
    - apply Qle_shift_div_l; [ assumption | ].
      unfold magnitude_lo, magnitude_hi in *. lra.
    - apply Qle_shift_div_r; [ assumption | ].
      unfold magnitude_lo, magnitude_hi in *. lra. }
  destruct (Hrnd (1 / beta)) as (R1 & R2).
  { split.
    - eapply Qle_trans; [ | exact L' ].
      unfold smallest_normal, magnitude_lo. discriminate.
    - eapply Qle_trans; [ exact U' | ].
      unfold largest_power, magnitude_hi. discriminate. }
  set (y := 1 / beta) in *. set (z := rnd y) in *. clearbody z y.
  clear Hrnd. unfold unit_roundoff, magnitude_lo, magnitude_hi in *.
  split; lra.
Qed.

Lemma well_scaled_magnitudes (a b : Q) (values : list Q) :
  (1 # 2) * magnitude_lo <= a -> b <= 2 * magnitude_hi -> 0 < a ->
  values <> [] -> (Z.of_nat (List.length values) <= 1000000)%Z ->
  Forall (fun x => a <= x <= b) values ->
  well_scaled a b values.
Proof.
  intros Ha Hb Hpos Hne Hlen Hall.
  assert (Qnat (List.length values) <= 1000000) as Hn.
  { unfold Qnat. now rewrite <- (Zle_Qle _ 1000000). }
  pose proof (Qnat_nonneg (List.length values)) as Hn0.
  assert (a <= b) as Hab.
  { destruct Hall as [ | x l Hx _ ]; [ now elim Hne | lra ]. }
  assert (Qnat (List.length values) * b <= 1000000 * b) as Hnb
    by (apply Qmult_le_compat_r; lra).
  unfold well_scaled. repeat split; try assumption.
  - eapply Qle_trans; [ | exact Ha ].
    unfold smallest_normal, magnitude_lo. discriminate.
  - unfold smallest_normal, magnitude_lo, magnitude_hi in *. lra.
  - unfold largest_power, magnitude_lo, magnitude_hi in *. lra.
Qed.

(** C5, amended.  For a non-empty set of at most a million sectors whose
    average betas are positive and of ordinary magnitude (between 2^-300
    and 2^300), the sector weights of lines 49-50 sum to 1 within 1e-9 in
    every arithmetic that rounds each result with a relative error of at
    most 2^-53, as binary64 does in its normal range: both their exact sum
    and the sum that is itself computed with rounding.  In exact
    arithmetic they sum to exactly 1. *)
Theorem sector_wieghts_sum_within_tolerance (rnd : Q -> Q) (avg_betas : list Q) :
  rounds_to_nearest rnd ->
  avg_betas <> [] ->
  (Z.of_nat (List.length avg_betas) <= 1000000)%Z ->
  Forall (fun b => magnitude_lo <= b <= magnitude_hi) avg_betas ->
  Qabs (Qsum (@sector_wieghts_col Q (rounded_arith rnd) avg_betas) - 1)
  <= tolerance /\
  Qabs (rounded_sum rnd (@sector_wieghts_col Q (rounded_arith rnd) avg_betas) - 1)
  <= tolerance /\
  Qsum (@sector_wieghts_col Q Q_arith avg_betas) == 1.
Proof.
  intros Hrnd Hne Hlen Hall.
  assert (well_scaled ((1 # 2) * magnitude_lo) (2 * magnitude_hi)
            (@inverse_beta Q (rounded_arith rnd) avg_betas)) as Hs.
  { apply well_scaled_magnitudes.
    - apply Qle_refl.
    - apply Qle_refl.
    - unfold magnitude_lo. reflexivity.
    - destruct avg_betas; [ now elim Hne | discriminate ].
    - unfold inverse_beta. now rewrite length_map.
    - unfold inverse_beta. apply Forall_map.
      eapply Forall_impl; [ | exact Hall ]. intros beta Hb.
      apply (inverse_in_range rnd beta Hrnd Hb). }
  destruct (normalised_sum_close_to_one rnd _ _ _ Hrnd Hs) as (E1 & E2).
  split; [ exact E1 | ]. split; [ exact E2 | ].
  apply exact_sector_wieghts_sum_to_one.
  - eapply Forall_impl; [ | exact Hall ]. intros beta (L & _) Z.
    rewrite Z in L. unfold magnitude_lo in L. now apply L.
  - assert (0 < Qsum (inverse_beta avg_betas)); [ | lra ].
    apply positive_betas_do_not_cancel; [ exact Hne | ].
    eapply Forall_impl; [ | exact Hall ]. intros beta (L & _).
    eapply Qlt_le_trans; [ | exact L ]. unfold magnitude_lo. reflexivity.
Qed.

Lemma sector_wieghts_sum_within_tolerance_witness :
  Qabs (Qsum (@sector_wieghts_col Q (rounded_arith round_up) [3#2; 1#2]) - 1)
  <= tolerance /\
  Qabs (rounded_sum round_up
          (@sector_wieghts_col Q (rounded_arith round_up) [3#2; 1#2]) - 1)
  <= tolerance /\
  Qsum (@sector_wieghts_col Q Q_arith [3#2; 1#2]) == 1.
Proof.
  apply (sector_wieghts_sum_within_tolerance round_up [3#2; 1#2]).
  - exact round_up_rounds_to_nearest.
  - discriminate.
  - simpl. lia.
  - repeat constructor; unfold magnitude_lo, magnitude_hi; discriminate.
Defined.

(** ** C6 *)

Lemma insert_desc_In {A : Type} (key : A -> Q) (x y : A) (l : list A) :
  In y (insert_desc key x l) <-> y = x \/ In y l.
Proof.
  split.
  - intros H. apply (Permutation_in _ (Permutation_sym (insert_desc_perm key x l))) in H.
    destruct H; [ left; congruence | now right ].
  - intros H. apply (Permutation_in _ (insert_desc_perm key x l)).
    destruct H; [ left; congruence | now right ].
Qed.

Lemma insert_desc_sorted {A : Type} (key : A -> Q) (x : A) (l : list A) :
  StronglySorted (fun a b => key b <= key a) l ->
  StronglySorted (fun a b => key b <= key a) (insert_desc key x l).
Proof.
  induction 1 as [ | y l Hs IH Hy ]; simpl.
  - constructor; constructor.
  - destruct (Qle_bool (key y) (key x)) eqn:E.
    + apply Qle_bool_iff in E. constructor; [ now constructor | ].
      constructor; [ exact E | ].
      eapply Forall_impl; [ | exact Hy ]. simpl. intros; lra.
    + assert (key x <= key y) as Hxy.
      { destruct (Qlt_le_dec (key x) (key y)) as [ L | L ]; [ lra | ].
        apply Qle_bool_iff in L. congruence. }
      constructor; [ exact IH | ].
      apply Forall_forall. intros z Hz. apply insert_desc_In in Hz.
      destruct Hz as [ -> | Hz ]; [ exact Hxy | ].
      rewrite Forall_forall in Hy. now apply Hy.
Qed.

Lemma sort_values_desc_sorted {A : Type} (key : A -> Q) (l : list A) :
  StronglySorted (fun a b => key b <= key a) (sort_values_desc key l).
Proof.
  induction l as [ | x l IH ]; simpl; [ constructor | ].
  now apply insert_desc_sorted.
Qed.

Lemma sorted_firstn_skipn {A : Type} (R : A -> A -> Prop) (n : nat) (l : list A) :
  StronglySorted R l ->
  forall a b, In a (firstn n l) -> In b (skipn n l) -> R a b.
Proof.
  intros Hs. revert n. induction Hs as [ | x l Hs IH Hx ]; intros n a b Ha Hb.
  - rewrite firstn_nil in Ha. contradiction.
  - destruct n as [ | n ]; simpl in *; [ contradiction | ].
    destruct Ha as [ <- | Ha ].
    + rewrite Forall_forall in Hx. apply Hx.
      rewrite <- (firstn_skipn n l). apply in_or_app. now right.
    + eapply IH; eassumption.
Qed.

(** C6, refuted as stated: for the margins 0.4, 0.3 and 0.1, all selected
    by any limit of three or more, line 153 gives the float64 weights
    0.5000000000000001, 0.375 and 0.12500000000000003.  Their float64 sum
    is 1.0000000000000002 and their exact sum is above 1. *)
Lemma float64_stock_wieghts_miss_one :
  Binary64.column_sum (Binary64.stock_wieghts margins64)
  = S754_finite false 4503599627370497 (-52) /\
  Binary64.column_sum (Binary64.stock_wieghts margins64) <> Binary64.one /\
  SFltb Binary64.one (Binary64.column_sum (Binary64.stock_wieghts margins64))
  = true /\
  1 < Qsum (map Binary64.to_Q (Binary64.stock_wieghts margins64)).
Proof.
  split; [ vm_compute; reflexivity | ].
  split; [ vm_compute; discriminate | ].
  split; vm_compute; reflexivity.
Qed.

Lemma extract_stock_wieght_in_rows (ar : Arith Q) (sector_group : list security)
  (limit : nat) :
  map s_stock (extract_stock_wieght_in ar sector_group limit)
  = filter (fun r => Qltb 0 (profitMargins r))
           (nlargest limit profitMargins sector_group).
Proof.
  unfold extract_stock_wieght_in. rewrite map_map. simpl. apply map_id.
Qed.

Lemma extract_stock_wieght_in_col (ar : Arith Q) (sector_group : list security)
  (limit : nat) :
  map stock_wieght (extract_stock_wieght_in ar sector_group limit)
  = @stock_wieght_col Q ar
      (map profitMargins
         (filter (fun r => Qltb 0 (profitMargins r))
                 (nlargest limit profitMargins sector_group))).
Proof.
  unfold extract_stock_wieght_in, stock_wieght_col. now rewrite !map_map.
Qed.

(** C6, amended.  [extract_stock_wieght] keeps, of the [limit] rows with
    the largest profit margins, those with a positive margin, and weighs
    each by the quotient of its margin by the sum of the kept margins, sum
    and quotient as the arithmetic rounds them; a sector whose top rows
    all have margin at most 0 yields no row.  In every arithmetic that
    rounds each result with a relative error of at most 2^-53, as binary64
    does in its normal range, the weights of a non-empty result sum to 1
    within 1e-9 when the limit is at most a million and the kept margins
    are of ordinary magnitude (between 2^-300 and 2^300). *)
Theorem extract_stock_wieght_spec (rnd : Q -> Q) (sector_group : list security)
  (limit : nat) :
  rounds_to_nearest rnd ->
  let top := nlargest limit profitMargins sector_group in
  let kept := filter (fun r => Qltb 0 (profitMargins r)) top in
  let rows := extract_stock_wieght_in (rounded_arith rnd) sector_group limit in
  Permutation sector_group (top ++ dropped limit sector_group) /\
  (List.length top <= limit)%nat /\
  (forall a b, In a top -> In b (dropped limit sector_group) ->
               profitMargins b <= profitMargins a) /\
  map s_stock rows = kept /\
  (forall r, In r kept <-> In r top /\ 0 < profitMargins r) /\
  Forall (fun r => stock_wieght r
                   = rnd (profitMargins (s_stock r)
                          / rounded_sum rnd (map profitMargins kept))) rows /\
  (rows <> [] ->
   (Z.of_nat limit <= 1000000)%Z ->
   Forall (fun r => magnitude_lo <= profitMargins r <= magnitude_hi) kept ->
   Qabs (Qsum (map stock_wieght rows) - 1) <= tolerance /\
   Qabs (rounded_sum rnd (map stock_wieght rows) - 1) <= tolerance) /\
  ((forall r, In r top -> profitMargins r <= 0) -> rows = []).
Proof.
  intros Hrnd top kept rows.
  assert (map s_stock rows = kept) as Hrows
    by apply extract_stock_wieght_in_rows.
  assert (List.length top <= limit)%nat as Htop
    by (unfold top, nlargest; apply firstn_le_length).
  split.
  { unfold top, nlargest, dropped. rewrite firstn_skipn.
    apply sort_values_desc_perm. }
  split; [ exact Htop | ].
  split.
  { intros a b Ha Hb.
    apply (sorted_firstn_skipn (fun a b => profitMargins b <= profitMargins a)
             limit (sort_values_desc profitMargins sector_group)
             (sort_values_desc_sorted _ _) a b Ha Hb). }
  split; [ exact Hrows | ].
  split.
  { intros r. unfold kept. rewrite filter_In, Qltb_lt. reflexivity. }
  split.
  { unfold rows, extract_stock_wieght_in. apply Forall_map, Forall_forall.
    intros r _. reflexivity. }
  split.
  { intros Hne Hlimit Hmag.
    assert (map stock_wieght rows = normalise rnd (map profitMargins kept)) as E
      by apply extract_stock_wieght_in_col.
    rewrite E.
    apply (normalised_sum_close_to_one rnd magnitude_lo magnitude_hi _ Hrnd).
    apply well_scaled_magnitudes.
    - unfold magnitude_lo. discriminate.
    - unfold magnitude_hi. discriminate.
    - unfold magnitude_lo. reflexivity.
    - intros F. apply map_eq_nil in F. rewrite <- Hrows in F.
      apply map_eq_nil in F. contradiction.
    - rewrite length_map.
      assert (List.length kept <= List.length top)%nat
        by (unfold kept; apply filter_length_le).
      lia.
    - apply Forall_map. exact Hmag. }
  { intros Hall. unfold rows, extract_stock_wieght_in. fold top.
    rewrite (filter_all_false _ top); [ reflexivity | ].
    intros r Hr. apply Qltb_ge. now apply Hall. }
Qed.

Lemma extract_stock_wieght_spec_witness :
  map (fun r => profitMargins (s_stock r))
      (extract_stock_wieght_in (rounded_arith round_up)
         (margins [1#10; -(2#10); 3#10; 4#10; 0]) 4)
  = [4#10; 3#10; 1#10] /\
  Qabs (Qsum (map stock_wieght
                (extract_stock_wieght_in (rounded_arith round_up)
                   (margins [1#10; -(2#10); 3#10; 4#10; 0]) 4)) - 1)
  <= tolerance.
Proof.
  split; [ reflexivity | ].
  destruct (extract_stock_wieght_spec round_up
              (margins [1#10; -(2#10); 3#10; 4#10; 0]) 4
              round_up_rounds_to_nearest)
    as (_ & _ & _ & _ & _ & _ & S & _).
  apply S.
  - vm_compute. discriminate.
  - lia.
  - repeat constructor; unfold magnitude_lo, magnitude_hi; discriminate.
Defined.

(** ** C7 *)


Lemma grows_refl (a : merged_row) : grows a a.
Proof. unfold grows. destruct (shares a); [ lia | exact I ]. Qed.

Lemma grows_trans (a b c : merged_row) : grows a b -> grows b c -> grows a c.
Proof.
  unfold grows. destruct (shares a), (shares b), (shares c); try tauto; lia.
Qed.

Lemma bump_grows (K o : list merged_row) : Forall2 grows o (bump K o).
Proof.
  unfold bump. induction o as [ | r o IH ]; simpl; constructor; [ | exact IH ].
  destruct (isin (label r) (map label K)); [ | apply grows_refl ].
  unfold grows. simpl. destruct (shares r); simpl; [ lia | exact I ].
Qed.

Lemma Forall2_grows_refl (a : list merged_row) : Forall2 grows a a.
Proof.
  induction a; constructor; [ apply grows_refl | assumption ].
Qed.

Lemma Forall2_grows_trans (a b c : list merged_row) :
  Forall2 grows a b -> Forall2 grows b c -> Forall2 grows a c.
Proof.
  intros Hab. revert c. induction Hab as [ | x y a b Hxy Hab IH ]; intros c Hbc;
    inversion Hbc; subst; constructor.
  - eapply grows_trans; eassumption.
  - now apply IH.
Qed.

(** Phase 2 only ever adds shares. *)
Lemma redistribute_grows (df : list merged_row) :
  forall fuel o residue n o' residue' n',
    redistribute fuel df o residue n = Some (o', residue', n') ->
    Forall2 grows o o'.
Proof.
  induction fuel as [ | fuel IH ]; intros o residue n o' residue' n' E;
    simpl in E; [ discriminate | ].
  destruct (redistribute_pass df o residue) as [ [o1 r1] | ] eqn:P.
  - destruct (redistribute_pass_spec _ _ _ _ _ P) as (_ & _ & _ & -> & _).
    eapply Forall2_grows_trans; [ apply bump_grows | ].
    eapply IH; eassumption.
  - injection E as <- _ _. apply Forall2_grows_refl.
Qed.




(** ** C8 *)






(** ** C9 *)

(** C9, refuted as stated: after [portfolio_optimization] the caller's
    metrics frame carries a [sector_wieghts] column it did not have, and
    after [allocate_funds] the caller's [df_orig] carries a [shares]
    column it did not have. *)
Lemma caller_frames_are_written :
  snd (portfolio_optimization 5 universe_metrics universe 1000 10)
    <> universe_metrics /\
  map mr_sector_wieghts universe_metrics = [None; None] /\
  (exists w1 w2,
     map mr_sector_wieghts
       (snd (portfolio_optimization 5 universe_metrics universe 1000 10))
     = [Some w1; Some w2]) /\
  (exists res df_orig',
     allocate_funds 5 residue_300 1000 = Some (res, df_orig') /\
     df_orig' <> residue_300 /\
     map shares residue_300 = [None; None] /\
     map shares df_orig' = [Some 1%Z; Some 6%Z]).
Proof.
  split; [ intros E; vm_compute in E; discriminate | ].
  split; [ reflexivity | ].
  split; [ vm_compute; eauto | ].
  destruct (allocate_funds 5 residue_300 1000) as [ [res o] | ] eqn:E;
    [ | vm_compute in E; discriminate ].
  exists res, o. split; [ reflexivity | ].
  vm_compute in E. injection E as _ <-.
  split; [ discriminate | ]. split; reflexivity.
Qed.

Lemma assign_sector_wieghts_frame (l : list metrics_row) (ws : list Q) :
  List.length ws = List.length l ->
  map (set_sector_wieghts None)
      (map (fun mw : metrics_row * Q => set_sector_wieghts (Some (snd mw)) (fst mw))
           (combine l ws))
  = map (set_sector_wieghts None) l /\
  Forall (fun m => mr_sector_wieghts m <> None)
      (map (fun mw : metrics_row * Q => set_sector_wieghts (Some (snd mw)) (fst mw))
           (combine l ws)).
Proof.
  revert ws. induction l as [ | m l IH ]; intros [ | w ws ] E; simpl in *;
    try discriminate; [ split; [ reflexivity | constructor ] | ].
  injection E as E. destruct (IH ws E) as (F1 & F2). split.
  - now rewrite F1.
  - constructor; [ simpl; discriminate | exact F2 ].
Qed.

Lemma bump_frame (K o : list merged_row) :
  map (set_shares None) (bump K o) = map (set_shares None) o.
Proof.
  unfold bump. rewrite map_map. apply map_ext. intros r.
  now destruct (isin (label r) (map label K)).
Qed.

Lemma redistribute_frame (df : list merged_row) :
  forall fuel o residue n o' residue' n',
    redistribute fuel df o residue n = Some (o', residue', n') ->
    map (set_shares None) o' = map (set_shares None) o.
Proof.
  induction fuel as [ | fuel IH ]; intros o residue n o' residue' n' E;
    simpl in E; [ discriminate | ].
  destruct (redistribute_pass df o residue) as [ [o1 r1] | ] eqn:P.
  - destruct (redistribute_pass_spec _ _ _ _ _ P) as (_ & _ & _ & -> & _).
    rewrite (IH _ _ _ _ _ _ E). apply bump_frame.
  - now injection E as <- _ _.
Qed.

Lemma portfolio_optimization_metrics (fuel : nat)
  (metrics_df_global : list metrics_row) (stock_port_df : list security)
  (total_amount : Q) (limit : nat) :
  snd (portfolio_optimization fuel metrics_df_global stock_port_df
         total_amount limit)
  = assign_sector_wieghts metrics_df_global.
Proof.
  unfold portfolio_optimization.
  now destruct (groupby_apply _ stock_port_df).
Qed.

(** C9, amended: the only writes onto caller-held frames are the two
    derived columns.  [portfolio_optimization] leaves every other column
    of the metrics frame as it was and fills [sector_wieghts] in every
    row; [allocate_funds] leaves every other column of [df_orig] as it was
    and the [shares] it writes there are the ones it returns. *)
Theorem only_derived_columns_are_written (fuel : nat)
  (metrics_df_global : list metrics_row) (stock_port_df : list security)
  (total_amount : Q) (limit : nat)
  (df_orig df_orig' : list merged_row) (res : list alloc_row) :
  NoDup (map label df_orig) ->
  allocate_funds fuel df_orig total_amount = Some (res, df_orig') ->
  let metrics' :=
    snd (portfolio_optimization fuel metrics_df_global stock_port_df
           total_amount limit) in
  map (set_sector_wieghts None) metrics'
    = map (set_sector_wieghts None) metrics_df_global /\
  Forall (fun m => mr_sector_wieghts m <> None) metrics' /\
  map (set_shares None) df_orig' = map (set_shares None) df_orig /\
  res = map project df_orig'.
Proof.
  intros _ E. cbv zeta. rewrite portfolio_optimization_metrics.
  unfold assign_sector_wieghts.
  destruct (assign_sector_wieghts_frame metrics_df_global
              (sector_wieghts_col (map avg_beta metrics_df_global)))
    as (F1 & F2).
  { now rewrite sector_wieghts_col_length, length_map. }
  split; [ exact F1 | ]. split; [ exact F2 | ].
  unfold allocate_funds in E.
  destruct (phase1 df_orig total_amount) as [ [df o] r0 ] eqn:P.
  destruct (redistribute fuel df o r0 0) as [ [ [o' r'] n' ] | ] eqn:R;
    [ | discriminate ].
  injection E as <- <-. split; [ | reflexivity ].
  rewrite (redistribute_frame _ _ _ _ _ _ _ _ R).
  unfold phase1 in P. injection P as _ <- _.
  rewrite map_map. reflexivity.
Qed.

Lemma only_derived_columns_are_written_witness :
  exists res df_orig',
    allocate_funds 5 residue_300 1000 = Some (res, df_orig') /\
    map (set_sector_wieghts None)
        (snd (portfolio_optimization 5 universe_metrics universe 1000 10))
      = map (set_sector_wieghts None) universe_metrics /\
    Forall (fun m => mr_sector_wieghts m <> None)
        (snd (portfolio_optimization 5 universe_metrics universe 1000 10)) /\
    map (set_shares None) df_orig' = map (set_shares None) residue_300 /\
    res = map project df_orig'.
Proof.
  destruct (allocate_funds 5 residue_300 1000) as [ [res o] | ] eqn:E;
    [ | vm_compute in E; discriminate ].
  exists res, o. split; [ reflexivity | ].
  apply (only_derived_columns_are_written 5 universe_metrics universe 1000 10
           residue_300 o res); [ | exact E ].
  repeat constructor; simpl; intuition discriminate.
Defined.

(** ** Scenarios A and B of the specification *)

Example scenario_A :
  option_map (fun x => counts (fst x))
    (allocate_funds 1 [candidate "A" 300 (6#10); candidate "B" 200 (4#10)] 1000)
  = Some [("A", Some 2%Z); ("B", Some 2%Z)].
Proof. vm_compute. reflexivity. Qed.

Example scenario_B :
  option_map (fun x => counts (fst x))
    (allocate_funds 1 [candidate "A" 300 (1#2); candidate "B" 400 (1#2)] 1000)
  = Some [("A", Some 1%Z); ("B", Some 1%Z)].
Proof. vm_compute. reflexivity. Qed.

(** * Further properties of the code *)

(** ** allocate_funds: what a returned allocation looks like *)

Lemma redistribute_exit (df : list merged_row) :
  forall fuel o residue n o' residue' n',
    redistribute fuel df o residue n = Some (o', residue', n') ->
    affordable residue' df = [].
Proof.
  induction fuel as [ | fuel IH ]; intros o residue n o' residue' n' E;
    simpl in E; [ discriminate | ].
  destruct (redistribute_pass df o residue) as [ [o1 r1] | ] eqn:P.
  - eapply IH; eassumption.
  - injection E as _ <- _. now apply redistribute_pass_break in P.
Qed.

Lemma redistribute_accounts (m : Q) (df : list merged_row) :
  0 < m -> Forall (fun r => m <= price r) df ->
  forall fuel o residue n o' residue' n',
    redistribute fuel df o residue n = Some (o', residue', n') ->
    consistent df o ->
    consistent df o' /\ spent o' + residue' == spent o + residue /\
    map tp o' = map tp o.
Proof.
  intros Hm Hdf. induction fuel as [ | fuel IH ]; intros o residue n o' residue' n' E Hc;
    simpl in E; [ discriminate | ].
  destruct (redistribute_pass df o residue) as [ [o1 r1] | ] eqn:P.
  - destruct (redistribute_pass_step m df o o1 residue r1 Hm Hdf P)
      as (_ & _ & Htp & Hstep).
    destruct (Hstep Hc) as (Hc1 & Hs1).
    destruct (IH _ _ _ _ _ _ E Hc1) as (Hc' & Hs' & Htp').
    split; [ exact Hc' | ]. split; [ lra | congruence ].
  - injection E as <- <- <-.
    split; [ exact Hc | ]. split; [ lra | reflexivity ].
Qed.

(** Everything a returned call tells about its result. *)
Lemma allocate_funds_returned (df_orig : list merged_row) (B m : Q) (fuel : nat)
  (res : list alloc_row) (o' : list merged_row) :
  NoDup (map label df_orig) ->
  0 < m -> Forall (fun r => m <= price r) df_orig ->
  allocate_funds fuel df_orig B = Some (res, o') ->
  res = map project o' /\
  Forall has_shares o' /\
  map tp o' = map tp df_orig /\
  Forall2 grows (map (floored B) df_orig) o' /\
  exists residue',
    spent o' + residue' == B /\
    affordable residue'
      (map (floored B) (sort_values_desc final_wieght df_orig)) = [].
Proof.
  intros Hnd Hm Hge. unfold allocate_funds.
  rewrite (phase1_unique df_orig B Hnd).
  set (df := map (floored B) (sort_values_desc final_wieght df_orig)).
  set (o := map (floored B) df_orig).
  destruct (redistribute fuel df o (B - spent df) 0) as [ [ [o1 r1] n1 ] | ] eqn:E;
    [ | discriminate ].
  intros X. injection X as <- <-.
  assert (Forall (fun r => m <= price r) df) as Hdf
    by (apply (Forall_price_df (fun p => m <= p)); exact Hge).
  destruct (redistribute_accounts m df Hm Hdf _ _ _ _ _ _ _ E
              (phase1_consistent df_orig B Hnd)) as ((_ & _ & Hh) & Hs & Htp).
  split; [ reflexivity | ]. split; [ exact Hh | ].
  split.
  { rewrite Htp. unfold o. rewrite map_map. reflexivity. }
  split; [ exact (redistribute_grows df _ _ _ _ _ _ _ E) | ].
  exists r1. split.
  - assert (spent o == spent df) as Eo
      by (apply spent_floored_perm, sort_values_desc_perm).
    lra.
  - exact (redistribute_exit df _ _ _ _ _ _ _ E).
Qed.

Lemma floor_shares_nonneg (B : Q) (r : merged_row) :
  0 <= B -> 0 <= final_wieght r -> 0 < price r ->
  (0 <= floor_shares B r)%Z.
Proof.
  intros HB Hw Hp. unfold floor_shares.
  change 0%Z with (Qfloor 0). apply Qfloor_resp_le.
  unfold Qdiv. pose proof (Qinv_lt_0_compat _ Hp).
  apply Qmult_le_0_compat; [ | lra ].
  now apply Qmult_le_0_compat.
Qed.

(** A budget that is not negative and weights that are not negative give
    share counts that are not negative: the floor is at least 0 and Phase 2
    only adds. *)
Theorem allocate_funds_counts_nonnegative (df_orig : list merged_row) (B : Q)
  (fuel : nat) (res : list alloc_row) (df_orig' : list merged_row) :
  NoDup (map label df_orig) ->
  0 <= B ->
  Forall (fun r => 0 < price r) df_orig ->
  Forall (fun r => 0 <= final_wieght r) df_orig ->
  allocate_funds fuel df_orig B = Some (res, df_orig') ->
  Forall (fun a => exists s, a_shares a = Some s /\ (0 <= s)%Z) res.
Proof.
  intros Hnd HB Hp Hw E.
  destruct (positive_prices_bounded_below df_orig Hp) as (m & Hm & Hge).
  destruct (allocate_funds_returned df_orig B m fuel res df_orig' Hnd Hm Hge E)
    as (-> & _ & _ & G & _).
  clear E Hnd Hge. revert df_orig' G.
  induction df_orig as [ | r l IH ]; intros o' G;
    inversion G as [ | ? y ? o'' Gy G' ]; subst; simpl; constructor.
  - unfold grows in Gy. simpl in Gy.
    destruct (shares y) as [ s | ] eqn:S; [ | contradiction ].
    exists s. simpl. split; [ exact S | ].
    inversion Hp as [ | ? ? Hp1 Hp2 ]; inversion Hw as [ | ? ? Hw1 Hw2 ]; subst.
    pose proof (floor_shares_nonneg B r HB Hw1 Hp1). lia.
  - inversion Hp; inversion Hw; subst. now apply IH.
Qed.

Lemma allocate_funds_counts_nonnegative_witness :
  exists res df_orig',
    allocate_funds 5 residue_300 1000 = Some (res, df_orig') /\
    Forall (fun a => exists s, a_shares a = Some s /\ (0 <= s)%Z) res.
Proof.
  destruct (allocate_funds 5 residue_300 1000) as [ [res o'] | ] eqn:E;
    [ | vm_compute in E; discriminate ].
  exists res, o'. split; [ reflexivity | ].
  apply (allocate_funds_counts_nonnegative residue_300 1000 5 res o').
  - repeat constructor; simpl; intuition discriminate.
  - discriminate.
  - repeat constructor.
  - repeat constructor; simpl; discriminate.
  - exact E.
Defined.

(** ** allocate_funds: a free candidate keeps the loop running *)





(** ** groupby: the groups partition the frame *)

Lemma ascii_compare_refl (a : Ascii.ascii) : Ascii.compare a a = Eq.
Proof. unfold Ascii.compare. apply N.compare_refl. Qed.

Lemma ascii_compare_lt_trans (a b c : Ascii.ascii) :
  Ascii.compare a b = Lt -> Ascii.compare b c = Lt -> Ascii.compare a c = Lt.
Proof.
  unfold Ascii.compare. rewrite !N.compare_lt_iff. lia.
Qed.

Lemma compare_refl (a : string) : String.compare a a = Eq.
Proof.
  induction a as [ | x a IH ]; simpl; [ reflexivity | ].
  now rewrite ascii_compare_refl.
Qed.

Lemma compare_lt_trans (a b c : string) :
  String.compare a b = Lt -> String.compare b c = Lt -> String.compare a c = Lt.
Proof.
  revert b c. induction a as [ | x a IH ]; intros [ | y b ] [ | z c ]; simpl;
    try discriminate; try reflexivity.
  destruct (Ascii.compare x y) eqn:Exy; try discriminate;
    destruct (Ascii.compare y z) eqn:Eyz; try discriminate; intros Hab Hbc.
  - apply Ascii.compare_eq_iff in Exy, Eyz. subst.
    rewrite ascii_compare_refl. now apply IH with b.
  - apply Ascii.compare_eq_iff in Exy. subst. now rewrite Eyz.
  - apply Ascii.compare_eq_iff in Eyz. subst. now rewrite Exy.
  - now rewrite (ascii_compare_lt_trans x y z Exy Eyz).
Qed.

Lemma insert_key_In (k y : string) (l : list string) :
  In y (insert_key k l) <-> y = k \/ In y l.
Proof.
  induction l as [ | x l IH ]; simpl; [ intuition | ].
  destruct (String.compare k x) eqn:E; simpl.
  - apply String.compare_eq_iff in E. subst. intuition.
  - intuition.
  - rewrite IH. intuition.
Qed.

Lemma insert_key_sorted (k : string) (l : list string) :
  StronglySorted (fun a b => String.compare a b = Lt) l ->
  StronglySorted (fun a b => String.compare a b = Lt) (insert_key k l).
Proof.
  induction 1 as [ | x l Hs IH Hx ]; simpl.
  - constructor; constructor.
  - destruct (String.compare k x) eqn:E.
    + now constructor.
    + constructor; [ now constructor | ].
      constructor; [ exact E | ].
      eapply Forall_impl; [ | exact Hx ]. simpl. intros y Hy.
      now apply compare_lt_trans with x.
    + constructor; [ exact IH | ].
      apply Forall_forall. intros y Hy. apply insert_key_In in Hy.
      destruct Hy as [ -> | Hy ].
      * rewrite String.compare_antisym, E. reflexivity.
      * rewrite Forall_forall in Hx. now apply Hx.
Qed.

Lemma group_keys_sorted {A : Type} (col : A -> string) (df : list A) :
  StronglySorted (fun a b => String.compare a b = Lt) (group_keys col df).
Proof.
  unfold group_keys. induction (map col df) as [ | k l IH ]; simpl.
  - constructor.
  - now apply insert_key_sorted.
Qed.

Lemma group_keys_In {A : Type} (col : A -> string) (df : list A) (k : string) :
  In k (group_keys col df) <-> In k (map col df).
Proof.
  unfold group_keys. induction (map col df) as [ | x l IH ]; simpl.
  - reflexivity.
  - rewrite insert_key_In, IH. intuition.
Qed.

Lemma sorted_lt_NoDup (l : list string) :
  StronglySorted (fun a b => String.compare a b = Lt) l -> NoDup l.
Proof.
  induction 1 as [ | x l Hs IH Hx ]; constructor; [ | exact IH ].
  intros Hin. rewrite Forall_forall in Hx. specialize (Hx x Hin).
  rewrite compare_refl in Hx. discriminate.
Qed.

Lemma group_keys_NoDup {A : Type} (col : A -> string) (df : list A) :
  NoDup (group_keys col df).
Proof. apply sorted_lt_NoDup, group_keys_sorted. Qed.

(** Filtering a frame by each of a list of distinct keys that covers its
    column gives the rows back, reordered. *)
Lemma partition_by_keys {A : Type} (col : A -> string) (keys : list string)
  (df : list A) :
  NoDup keys -> (forall r, In r df -> In (col r) keys) ->
  Permutation
    (flat_map (fun k => filter (fun r => String.eqb (col r) k) df) keys) df.
Proof.
  intros Hnd. induction df as [ | x df IH ]; intros Hcov.
  - clear Hnd Hcov. induction keys as [ | k ks IHk ]; simpl;
      [ constructor | exact IHk ].
  - specialize (IH (fun r Hr => Hcov r (or_intror Hr))).
    transitivity
      (x :: flat_map (fun k => filter (fun r => String.eqb (col r) k) df) keys);
      [ | now constructor ].
    assert (In (col x) keys) as Hx by (apply Hcov; now left).
    clear IH Hcov.
    assert (forall ks', ~ In (col x) ks' ->
              flat_map (fun k => filter (fun r => String.eqb (col r) k) (x :: df)) ks'
              = flat_map (fun k => filter (fun r => String.eqb (col r) k) df) ks') as F.
    { induction ks' as [ | k' ks' IH' ]; intros Hn; cbn [flat_map]; [ reflexivity | ].
      rewrite IH'; [ | intros H; apply Hn; now right ].
      f_equal. cbn [filter].
      assert (String.eqb (col x) k' = false) as ->
        by (apply String.eqb_neq; intros Ek; apply Hn; left; now symmetry).
      reflexivity. }
    induction keys as [ | k ks IHk ]; [ contradiction | ].
    inversion Hnd as [ | ? ? Hk Hks ]; subst. cbn [flat_map].
    destruct (String.eqb (col x) k) eqn:E.
    + apply String.eqb_eq in E. subst k.
      rewrite (F ks Hk). cbn [filter]. rewrite String.eqb_refl. reflexivity.
    + destruct Hx as [ Hx | Hx ]; [ subst k; rewrite String.eqb_refl in E; discriminate | ].
      rewrite (IHk Hks Hx). cbn [filter]. rewrite E. apply Permutation_sym, Permutation_middle.
Qed.

Lemma groupby_flat {A : Type} (col : A -> string) (df : list A) :
  flat_map snd (groupby col df)
  = flat_map (fun k => filter (fun r => String.eqb (col r) k) df)
             (group_keys col df).
Proof.
  unfold groupby. induction (group_keys col df) as [ | k ks IH ]; simpl;
    [ reflexivity | now rewrite IH ].
Qed.

Lemma groupby_In {A : Type} (col : A -> string) (df : list A)
  (k : string) (g : list A) :
  In (k, g) (groupby col df) ->
  In k (group_keys col df) /\ g = filter (fun r => String.eqb (col r) k) df.
Proof.
  unfold groupby. rewrite in_map_iff. intros (k' & E & Hk).
  injection E as -> <-. now split.
Qed.

(** [groupby]: the group keys are distinct and in ascending order, no
    group is empty, every row of a group carries the group's key, and the
    groups together hold the rows of the frame, each once. *)
Lemma groupby_facts {A : Type} (col : A -> string) (df : list A) :
  map fst (groupby col df) = group_keys col df /\
  StronglySorted (fun a b => String.compare a b = Lt) (map fst (groupby col df)) /\
  NoDup (map fst (groupby col df)) /\
  (forall k, In k (map fst (groupby col df)) <-> In k (map col df)) /\
  Forall (fun kg => snd kg <> [] /\ Forall (fun r => col r = fst kg) (snd kg))
         (groupby col df) /\
  Permutation (flat_map snd (groupby col df)) df.
Proof.
  assert (map fst (groupby col df) = group_keys col df) as E.
  { unfold groupby. rewrite map_map. simpl. apply map_id. }
  split; [ exact E | ]. rewrite E.
  split; [ apply group_keys_sorted | ].
  split; [ apply group_keys_NoDup | ].
  split; [ apply group_keys_In | ].
  split.
  - apply Forall_forall. intros [k g] Hin.
    destruct (groupby_In col df k g Hin) as (Hk & ->). simpl. split.
    + apply group_keys_In, in_map_iff in Hk. destruct Hk as (r & Er & Hr).
      intros F.
      assert (In r (filter (fun r => String.eqb (col r) k) df)) as X
        by (apply filter_In; split; [ exact Hr | now apply String.eqb_eq ]).
      rewrite F in X. contradiction.
    + apply Forall_forall. intros r Hr. apply filter_In in Hr.
      now apply String.eqb_eq.
  - rewrite groupby_flat. apply partition_by_keys.
    + apply group_keys_NoDup.
    + intros r Hr. apply group_keys_In. now apply in_map.
Qed.

(** ** extract_metrics *)

Lemma Qsum_flat_map {A B : Type} (f : B -> Q) (g : A -> list B) (l : list A) :
  Qsum (map f (flat_map g l)) == Qsum (map (fun x => Qsum (map f (g x))) l).
Proof.
  induction l as [ | x l IH ]; simpl; [ reflexivity | ].
  rewrite map_app, Qsum_app, IH. reflexivity.
Qed.

Lemma Qsum_map_perm {A : Type} (f : A -> Q) (a b : list A) :
  Permutation a b -> Qsum (map f a) == Qsum (map f b).
Proof.
  intros Hp. apply Qsum_perm. now apply Permutation_map.
Qed.

(** [extract_metrics], called without a sector or with a sector that has
    rows: the frame has one row per distinct value of the
    grouping column among the rows that pass the sector filter, in
    ascending order of that value; it is empty exactly when no row passes;
    every row carries the sector asked for and no [sector_wieghts]; and
    the market caps of the rows that pass are all counted, each once. *)
Theorem extract_metrics_groups (data_df : list security)
  (sector_name : option string) (group_col : security -> string) :
  let kept :=
    match sector_name with
    | Some s => filter (fun r => String.eqb (sector r) s) data_df
    | None => data_df
    end in
  let summary_df := extract_metrics data_df sector_name group_col in
  sector_name = None \/ kept <> [] ->
  map group_key summary_df = group_keys group_col kept /\
  StronglySorted (fun a b => String.compare a b = Lt) (map group_key summary_df) /\
  (forall k, In k (map group_key summary_df) <-> In k (map group_col kept)) /\
  (summary_df = [] <-> kept = []) /\
  Forall (fun m => mr_sector m = sector_name /\ mr_sector_wieghts m = None)
         summary_df /\
  Qsum (map total_market_cap summary_df) == Qsum (map marketCap kept).
Proof.
  intros kept summary_df _.
  assert (map group_key summary_df = group_keys group_col kept) as E.
  { unfold summary_df, extract_metrics. fold kept. rewrite map_map. simpl.
    rewrite <- (proj1 (groupby_facts group_col kept)).
    reflexivity. }
  split; [ exact E | ]. rewrite E.
  split; [ apply group_keys_sorted | ].
  split; [ apply group_keys_In | ].
  split.
  { split; intros H.
    - destruct kept as [ | r kept' ] eqn:K; [ reflexivity | ].
      assert (In (group_col r) (group_keys group_col (r :: kept'))) as X
        by (apply group_keys_In; now left).
      rewrite <- E, H in X. contradiction.
    - unfold summary_df, extract_metrics. fold kept. now rewrite H. }
  split.
  { unfold summary_df, extract_metrics. apply Forall_map, Forall_forall.
    intros kg _. simpl. now split. }
  unfold summary_df, extract_metrics. fold kept. rewrite map_map. simpl.
  rewrite <- (Qsum_flat_map marketCap snd (groupby group_col kept)).
  apply Qsum_map_perm, groupby_facts.
Qed.

Lemma extract_metrics_groups_witness :
  map group_key (extract_metrics universe (Some "Tech") industry)
  = ["Chips"; "Software"] /\
  Forall (fun m => mr_sector m = Some "Tech" /\ mr_sector_wieghts m = None)
         (extract_metrics universe (Some "Tech") industry) /\
  Qsum (map total_market_cap (extract_metrics universe (Some "Tech") industry))
  == Qsum (map marketCap
             (filter (fun r => String.eqb (sector r) "Tech") universe)).
Proof.
  destruct (extract_metrics_groups universe (Some "Tech") industry)
    as (E & _ & _ & _ & F & T).
  - right. discriminate.
  - split; [ exact E | ]. split; [ exact F | exact T ].
Defined.

(** ** Containment with repetitions *)

Lemma subperm_of_perm {A : Type} (a b : list A) :
  Permutation a b -> subperm a b.
Proof. intros Hp. exists []. now rewrite app_nil_r. Qed.

Lemma subperm_trans {A : Type} (a b c : list A) :
  subperm a b -> subperm b c -> subperm a c.
Proof.
  intros (r1 & H1) (r2 & H2). exists (r1 ++ r2).
  rewrite app_assoc, H1. exact H2.
Qed.

Lemma subperm_filter {A : Type} (f : A -> bool) (l : list A) :
  subperm (filter f l) l.
Proof.
  exists (filter (fun x => negb (f x)) l).
  induction l as [ | x l IH ]; simpl; [ constructor | ].
  destruct (f x); simpl.
  - now constructor.
  - rewrite <- Permutation_middle. now constructor.
Qed.

Lemma subperm_firstn {A : Type} (n : nat) (l : list A) :
  subperm (firstn n l) l.
Proof. exists (skipn n l). now rewrite firstn_skipn. Qed.

Lemma subperm_In {A : Type} (a b : list A) (x : A) :
  subperm a b -> In x a -> In x b.
Proof.
  intros (r & H) Hx. eapply Permutation_in; [ exact H | ].
  apply in_or_app. now left.
Qed.

(** ** Rows of the selection and of the join *)

Lemma extract_stock_wieght_rows (g : list security) (limit : nat) :
  map s_stock (extract_stock_wieght g limit)
  = filter (fun r => Qltb 0 (profitMargins r)) (nlargest limit profitMargins g).
Proof.
  unfold extract_stock_wieght. rewrite map_map. simpl. apply map_id.
Qed.

Lemma extract_stock_wieght_subperm (g : list security) (limit : nat) :
  subperm (map s_stock (extract_stock_wieght g limit)) g.
Proof.
  rewrite extract_stock_wieght_rows.
  eapply subperm_trans; [ apply subperm_filter | ].
  eapply subperm_trans; [ apply subperm_firstn | ].
  apply subperm_of_perm, Permutation_sym, sort_values_desc_perm.
Qed.






Lemma extract_stock_wieght_positive (g : list security) (limit : nat) :
  Forall (fun r => 0 < stock_wieght r /\ stock_wieght r <= 1)
         (extract_stock_wieght g limit).
Proof.
  unfold extract_stock_wieght.
  set (kept := filter _ (nlargest limit profitMargins g)).
  assert (Forall (fun r => 0 < profitMargins r) kept) as Hk.
  { apply Forall_forall. intros r Hr. apply filter_In in Hr.
    now apply Qltb_lt. }
  apply Forall_map, Forall_forall. intros r Hr. simpl.
  assert (profitMargins r <= Qsum (map profitMargins kept)) as Hle.
  { clear -Hr Hk. induction Hk as [ | x l Hx Hl IH ]; [ contradiction | ].
    simpl. assert (0 <= Qsum (map profitMargins l)) as Hs.
    { apply Qsum_nonneg, Forall_map.
      eapply Forall_impl; [ | exact Hl ]. simpl. intros; lra. }
    destruct Hr as [ -> | Hr ]; [ lra | ]. specialize (IH Hr). lra. }
  rewrite Forall_forall in Hk. specialize (Hk r Hr).
  assert (0 < Qsum (map profitMargins kept)) as Ht by lra.
  split.
  - unfold Qdiv. pose proof (Qinv_lt_0_compat _ Ht).
    apply Qmult_lt_0_compat; assumption.
  - apply Qle_shift_div_r; [ exact Ht | lra ].
Qed.

(** ** get_sp_500_info *)

Lemma unique_In (x : string) (l : list string) : In x (unique l) <-> In x l.
Proof.
  induction l as [ | y l IH ]; simpl; [ reflexivity | ].
  rewrite filter_In, IH, negb_true_iff, String.eqb_neq.
  destruct (string_dec y x) as [ -> | N ]; intuition.
Qed.

Lemma unique_NoDup (l : list string) : NoDup (unique l).
Proof.
  induction l as [ | y l IH ]; simpl; constructor.
  - rewrite filter_In, negb_true_iff, String.eqb_neq. intuition.
  - now apply NoDup_filter.
Qed.





Lemma Qsum_pos (l : list Q) : l <> [] -> Forall (fun x => 0 < x) l -> 0 < Qsum l.
Proof.
  intros Hne Hl. destruct Hl as [ | x l Hx Hl ]; [ now elim Hne | ].
  simpl. assert (0 <= Qsum l); [ | lra ].
  apply Qsum_nonneg. eapply Forall_impl; [ | exact Hl ]. simpl. intros; lra.
Qed.

(** ** The inner join of portfolio_optimization *)





(** ** extract_stock_wieght: order and size of the weights *)

Lemma sorted_filter {A : Type} (R : A -> A -> Prop) (f : A -> bool) (l : list A) :
  StronglySorted R l -> StronglySorted R (filter f l).
Proof.
  induction 1 as [ | x l Hs IH Hx ]; simpl; [ constructor | ].
  destruct (f x); [ | exact IH ]. constructor; [ exact IH | ].
  apply Forall_forall. intros y Hy. apply filter_In in Hy.
  rewrite Forall_forall in Hx. now apply Hx.
Qed.

Lemma sorted_firstn {A : Type} (R : A -> A -> Prop) (n : nat) (l : list A) :
  StronglySorted R l -> StronglySorted R (firstn n l).
Proof.
  intros Hs. revert n. induction Hs as [ | x l Hs IH Hx ]; intros [ | n ]; simpl;
    try constructor.
  - apply IH.
  - apply Forall_forall. intros y Hy. rewrite Forall_forall in Hx. apply Hx.
    rewrite <- (firstn_skipn n l). apply in_or_app. now left.
Qed.

Lemma sorted_map {A B : Type} (R : B -> B -> Prop) (f : A -> B) (l : list A) :
  StronglySorted (fun a b => R (f a) (f b)) l -> StronglySorted R (map f l).
Proof.
  induction 1 as [ | x l Hs IH Hx ]; simpl; constructor; [ exact IH | ].
  now apply Forall_map.
Qed.

(** [extract_stock_wieght]: at most [limit] rows come back, in descending
    order of profit margin and so of stock weight, and every stock weight
    is positive and at most 1. *)
Theorem extract_stock_wieght_ordered (sector_group : list security) (limit : nat) :
  let rows := extract_stock_wieght sector_group limit in
  (List.length rows <= limit)%nat /\
  (List.length rows <= List.length sector_group)%nat /\
  StronglySorted
    (fun a b => profitMargins (s_stock b) <= profitMargins (s_stock a)) rows /\
  StronglySorted (fun a b => stock_wieght b <= stock_wieght a) rows /\
  Forall (fun r => 0 < stock_wieght r /\ stock_wieght r <= 1 /\
                   In (s_stock r) sector_group) rows.
Proof.
  intros rows.
  assert (StronglySorted (fun a b => profitMargins b <= profitMargins a)
            (filter (fun r => Qltb 0 (profitMargins r))
                    (nlargest limit profitMargins sector_group))) as Hs
    by (apply sorted_filter, sorted_firstn, sort_values_desc_sorted).
  assert (List.length rows <= List.length (nlargest limit profitMargins sector_group))%nat
    as Hlen.
  { unfold rows, extract_stock_wieght. rewrite length_map. apply filter_length_le. }
  split; [ | split; [ | split; [ | split ] ] ].
  - etransitivity; [ exact Hlen | ]. unfold nlargest. apply firstn_le_length.
  - etransitivity; [ exact Hlen | ]. unfold nlargest. rewrite length_firstn.
    rewrite <- (Permutation_length (sort_values_desc_perm profitMargins sector_group)).
    apply Nat.le_min_r.
  - unfold rows, extract_stock_wieght.
    apply sorted_map with (R := fun a b => profitMargins (s_stock b) <= profitMargins (s_stock a)).
    simpl. exact Hs.
  - unfold rows, extract_stock_wieght.
    set (kept := filter _ (nlargest limit profitMargins sector_group)) in *.
    apply sorted_map with (R := fun a b => stock_wieght b <= stock_wieght a). simpl.
    destruct kept as [ | r0 k0 ] eqn:K; [ constructor | ]. rewrite <- K in *.
    assert (0 < Qsum (map profitMargins kept)) as Ht.
    { apply Qsum_pos; [ rewrite K; discriminate | ].
      apply Forall_map, Forall_forall. intros x Hx. unfold kept in Hx.
      apply filter_In in Hx. now apply Qltb_lt. }
    generalize dependent (Qsum (map profitMargins kept)). intros t Ht.
    clear K. induction Hs as [ | x l Hl IH Hx ]; constructor; [ exact IH | ].
    eapply Forall_impl; [ | exact Hx ]. intros y Hy. simpl in Hy.
    unfold Qdiv. apply Qmult_le_compat_r; [ exact Hy | ].
    pose proof (Qinv_lt_0_compat _ Ht). lra.
  - apply Forall_forall. intros r Hr.
    pose proof (extract_stock_wieght_positive sector_group limit) as P.
    rewrite Forall_forall in P. destruct (P r Hr) as (P1 & P2).
    repeat split; try assumption.
    apply (subperm_In _ _ _ (extract_stock_wieght_subperm sector_group limit)).
    now apply in_map.
Qed.

(** ** plot_thematic_sector_metrics: what the panels show *)

Lemma insert_asc_perm {A : Type} (key : A -> Q) (x : A) (l : list A) :
  Permutation (x :: l) (insert_asc key x l).
Proof.
  induction l as [ | y l IH ]; simpl; [ reflexivity | ].
  destruct (Qle_bool (key x) (key y)); [ reflexivity | ].
  rewrite perm_swap. now constructor.
Qed.

Lemma insert_asc_sorted {A : Type} (key : A -> Q) (x : A) (l : list A) :
  StronglySorted (fun a b => key a <= key b) l ->
  StronglySorted (fun a b => key a <= key b) (insert_asc key x l).
Proof.
  induction 1 as [ | y l Hs IH Hy ]; simpl.
  - constructor; constructor.
  - destruct (Qle_bool (key x) (key y)) eqn:E.
    + apply Qle_bool_iff in E. constructor; [ now constructor | ].
      constructor; [ exact E | ].
      eapply Forall_impl; [ | exact Hy ]. simpl. intros; lra.
    + assert (key y <= key x) as Hyx.
      { destruct (Qlt_le_dec (key x) (key y)) as [ L | L ]; [ | exact L ].
        assert (key x <= key y) as L' by lra.
        apply Qle_bool_iff in L'. congruence. }
      constructor; [ exact IH | ].
      apply Forall_forall. intros z Hz.
      apply (Permutation_in _ (Permutation_sym (insert_asc_perm key x l))) in Hz.
      destruct Hz as [ <- | Hz ]; [ exact Hyx | ].
      rewrite Forall_forall in Hy. now apply Hy.
Qed.

Lemma sort_values_perm {A : Type} (ascending : bool) (key : A -> Q) (l : list A) :
  Permutation l (sort_values ascending key l).
Proof.
  unfold sort_values. destruct ascending; [ | apply sort_values_desc_perm ].
  unfold sort_values_asc. induction l as [ | x l IH ]; simpl; [ constructor | ].
  rewrite <- insert_asc_perm. now constructor.
Qed.

Lemma sort_values_sorted {A : Type} (ascending : bool) (key : A -> Q) (l : list A) :
  StronglySorted (in_order ascending key) (sort_values ascending key l).
Proof.
  unfold sort_values, in_order. destruct ascending; [ | apply sort_values_desc_sorted ].
  unfold sort_values_asc. induction l as [ | x l IH ]; simpl; [ constructor | ].
  now apply insert_asc_sorted.
Qed.

Lemma panel_shows_first {A : Type} (ascending : bool) (key : A -> Q)
  (limit : nat) (df : list A) :
  shows_first ascending key limit
    (firstn (if (List.length df <? limit)%nat then List.length df else limit)
            (sort_values ascending key df))
    df.
Proof.
  set (limit' := if (List.length df <? limit)%nat then List.length df else limit).
  assert (limit' = Nat.min limit (List.length df)) as El.
  { unfold limit'. destruct (Nat.ltb_spec (List.length df) limit); lia. }
  split; [ | split ].
  - rewrite length_firstn, <- (Permutation_length (sort_values_perm ascending key df)).
    lia.
  - apply sorted_firstn, sort_values_sorted.
  - exists (skipn limit' (sort_values ascending key df)). split.
    + rewrite firstn_skipn. apply sort_values_perm.
    + apply sorted_firstn_skipn, sort_values_sorted.
Qed.

(** [plot_thematic_sector_metrics], on a frame that is not empty: each of
    the four panels shows
    [min(limit, number of rows)] rows of the frame, the first ones in the
    order of the panel's own metric (descending unless [ascending]), and
    the figure is saved under the sector's name with the suffix .png. *)
Theorem plot_panels_show_first (summary_df : list metrics_row)
  (sector_name : string) (limit : nat) (ascending : bool) :
  summary_df <> [] ->
  let c := plot_thematic_sector_metrics summary_df sector_name limit ascending in
  shows_first ascending total_market_cap limit (panel_market_cap c) summary_df /\
  shows_first ascending avg_pe limit (panel_pe c) summary_df /\
  shows_first ascending avg_dividend_yield limit (panel_dividend_yield c) summary_df /\
  shows_first ascending avg_1y_return limit (panel_return c) summary_df /\
  save_path c = String.append sector_name ".png".
Proof.
  intros _ c. unfold c, plot_thematic_sector_metrics. simpl.
  repeat split; try apply panel_shows_first.
Qed.

Lemma plot_panels_show_first_witness :
  shows_first false total_market_cap 1
    (panel_market_cap (plot_thematic_sector_metrics universe_metrics "all" 1 false))
    universe_metrics /\
  shows_first false avg_pe 1
    (panel_pe (plot_thematic_sector_metrics universe_metrics "all" 1 false))
    universe_metrics /\
  shows_first false avg_dividend_yield 1
    (panel_dividend_yield (plot_thematic_sector_metrics universe_metrics "all" 1 false))
    universe_metrics /\
  shows_first false avg_1y_return 1
    (panel_return (plot_thematic_sector_metrics universe_metrics "all" 1 false))
    universe_metrics /\
  save_path (plot_thematic_sector_metrics universe_metrics "all" 1 false)
  = "all.png".
Proof.
  apply (plot_panels_show_first universe_metrics "all" 1 false).
  discriminate.
Defined.

(** ** report_generator.py: what the report holds and what is built *)

Section ReportFacts.
Variable llm_answer : nat -> string -> string.
Variable to_xml : list metrics_row -> string.
Variable strip : string -> string.
Variable A4 : Q * Q.
Variable inch : Q.
Variable STOCK_ANALYZER_PROMPT : string.
Variable PORTFOLIO_OPTIMIZER_PROMPT : string.

Lemma image_files_app (a b : list flowable) :
  image_files (a ++ b) = image_files a ++ image_files b.
Proof. unfold image_files. apply flat_map_app. Qed.

Lemma build_section_spec (sector_name : string) (metrics_df : list metrics_row)
  (st : report_state) :
  let st' := snd (build_section llm_answer to_xml strip inch
                    STOCK_ANALYZER_PROMPT sector_name metrics_df st) in
  llm_requests st'
  = llm_requests st ++ [build_prompt to_xml STOCK_ANALYZER_PROMPT metrics_df] /\
  List.length (report_list st') = (List.length (report_list st) + 4)%nat /\
  image_files (report_list st')
  = image_files (report_list st) ++ [String.append sector_name ".png"].
Proof.
  unfold build_section, generate_analysis, get_response, report_append, bind, ret.
  cbn [fst snd report_list llm_requests]. split; [ reflexivity | ]. split.
  - rewrite !length_app. simpl. lia.
  - rewrite !image_files_app. simpl. rewrite !app_nil_r. reflexivity.
Qed.

Lemma build_sections_cons (metrics_df : list metrics_row) (s : string)
  (rest : list string) (st : report_state) :
  build_sections llm_answer to_xml strip inch STOCK_ANALYZER_PROMPT
    metrics_df (s :: rest) st
  = build_sections llm_answer to_xml strip inch STOCK_ANALYZER_PROMPT
      metrics_df rest
      {| report_list :=
           report_list
             (snd (build_section llm_answer to_xml strip inch
                     STOCK_ANALYZER_PROMPT s
                     (filter (fun m => String.eqb (metrics_sector m) s) metrics_df)
                     st)) ++ [PageBreak];
         llm_requests :=
           llm_requests
             (snd (build_section llm_answer to_xml strip inch
                     STOCK_ANALYZER_PROMPT s
                     (filter (fun m => String.eqb (metrics_sector m) s) metrics_df)
                     st)) |}.
Proof.
  cbn [build_sections]. unfold bind at 1.
  destruct (build_section llm_answer to_xml strip inch STOCK_ANALYZER_PROMPT s
              (filter (fun m => String.eqb (metrics_sector m) s) metrics_df) st)
    as [r st1].
  reflexivity.
Qed.

Lemma build_sections_spec (metrics_df : list metrics_row)
  (sector_list : list string) :
  forall st,
  llm_requests
    (snd (build_sections llm_answer to_xml strip inch
            STOCK_ANALYZER_PROMPT metrics_df sector_list st))
  = llm_requests st
    ++ map (fun s => build_prompt to_xml STOCK_ANALYZER_PROMPT
                       (filter (fun m => String.eqb (metrics_sector m) s) metrics_df))
           sector_list /\
  List.length
    (report_list
       (snd (build_sections llm_answer to_xml strip inch
               STOCK_ANALYZER_PROMPT metrics_df sector_list st)))
  = (List.length (report_list st) + 5 * List.length sector_list)%nat /\
  image_files
    (report_list
       (snd (build_sections llm_answer to_xml strip inch
               STOCK_ANALYZER_PROMPT metrics_df sector_list st)))
  = image_files (report_list st)
    ++ map (fun s => String.append s ".png") sector_list.
Proof.
  induction sector_list as [ | s rest IH ]; intros st.
  - simpl. rewrite !app_nil_r. repeat split. lia.
  - rewrite build_sections_cons.
    destruct (build_section_spec s
                (filter (fun m => String.eqb (metrics_sector m) s) metrics_df) st)
      as (R1 & L1 & I1). cbn zeta in R1, L1, I1.
    match goal with |- context [build_sections _ _ _ _ _ _ _ ?x] => set (st2 := x) end.
    destruct (IH st2) as (R2 & L2 & I2).
    rewrite R2, L2, I2. unfold st2.
    cbn [report_list llm_requests]. rewrite R1, length_app, L1, image_files_app, I1.
    cbn [map List.length]. rewrite <- !app_assoc. simpl. repeat split. lia.
Qed.

Lemma build_final_report_eq (metrics_df : list metrics_row)
  (sector_list : list string) (requests : list string) :
  let st2 :=
    snd (build_sections llm_answer to_xml strip inch STOCK_ANALYZER_PROMPT
           metrics_df sector_list
           {| report_list :=
                [Spacer 1 (snd A4 / (25#10));
                 Paragraph (strip "Report On Analysis of S&P 500 Stocks") "HeaderStyle";
                 PageBreak];
              llm_requests := requests |}) in
  build_final_report llm_answer to_xml strip A4 inch
    STOCK_ANALYZER_PROMPT PORTFOLIO_OPTIMIZER_PROMPT
    metrics_df sector_list requests
  = (None,
     {| report_list :=
          report_list st2
          ++ [Spacer 1 (snd A4 / (25#10));
              Paragraph (strip "PORTFOLIO OPTIMIZATION") "HeaderStyle";
              PageBreak;
              Paragraph "TECHNIQUE" "TitleStyle";
              Paragraph (strip (llm_answer (List.length (llm_requests st2))
                                           PORTFOLIO_OPTIMIZER_PROMPT))
                        "BodyStyle"];
        llm_requests := llm_requests st2 ++ [PORTFOLIO_OPTIMIZER_PROMPT] |}).
Proof.
  unfold build_final_report. unfold bind at 1.
  unfold build_cover_page at 1. unfold bind, report_append, ret.
  cbn [fst snd report_list llm_requests app].
  destruct (build_sections llm_answer to_xml strip inch STOCK_ANALYZER_PROMPT
              metrics_df sector_list _) as [u st2].
  unfold build_portfolio_section, build_cover_page, get_response,
    bind, report_append, ret. cbn [fst snd report_list llm_requests].
  rewrite <- !app_assoc. reflexivity.
Qed.

Lemma build_final_report_facts_requests (metrics_df : list metrics_row)
  (sector_list : list string) (requests : list string) :
  llm_requests
    (snd (build_final_report llm_answer to_xml strip A4 inch
            STOCK_ANALYZER_PROMPT PORTFOLIO_OPTIMIZER_PROMPT
            metrics_df sector_list requests))
  = requests
    ++ map (fun s => build_prompt to_xml STOCK_ANALYZER_PROMPT
                       (filter (fun m => String.eqb (metrics_sector m) s) metrics_df))
           sector_list
    ++ [PORTFOLIO_OPTIMIZER_PROMPT].
Proof.
  rewrite build_final_report_eq. cbn [snd llm_requests].
  destruct (build_sections_spec metrics_df sector_list
              {| report_list :=
                   [Spacer 1 (snd A4 / (25#10));
                    Paragraph (strip "Report On Analysis of S&P 500 Stocks") "HeaderStyle";
                    PageBreak];
                 llm_requests := requests |}) as (R & _ & _).
  rewrite R. cbn [llm_requests]. now rewrite <- app_assoc.
Qed.

Lemma build_final_report_facts_story (metrics_df : list metrics_row)
  (sector_list : list string) (requests : list string) :
  let result := build_final_report llm_answer to_xml strip A4 inch
                  STOCK_ANALYZER_PROMPT PORTFOLIO_OPTIMIZER_PROMPT
                  metrics_df sector_list requests in
  fst result = None /\
  List.length (report_list (snd result)) = (8 + 5 * List.length sector_list)%nat /\
  image_files (report_list (snd result))
  = map (fun s => String.append s ".png") sector_list /\
  last (report_list (snd result)) PageBreak
  = Paragraph
      (strip (llm_answer (List.length requests + List.length sector_list)
                         PORTFOLIO_OPTIMIZER_PROMPT))
      "BodyStyle".
Proof.
  cbv zeta. rewrite build_final_report_eq. cbn [fst snd report_list].
  destruct (build_sections_spec metrics_df sector_list
              {| report_list :=
                   [Spacer 1 (snd A4 / (25#10));
                    Paragraph (strip "Report On Analysis of S&P 500 Stocks") "HeaderStyle";
                    PageBreak];
                 llm_requests := requests |}) as (R & L & I).
  cbn [report_list llm_requests] in R, L, I.
  split; [ reflexivity | ]. split; [ | split ].
  - rewrite length_app, L. simpl. lia.
  - rewrite image_files_app, I. simpl. now rewrite app_nil_r.
  - rewrite R, length_app, length_map.
    change [Spacer 1 (snd A4 / (25#10));
            Paragraph (strip "PORTFOLIO OPTIMIZATION") "HeaderStyle";
            PageBreak; Paragraph "TECHNIQUE" "TitleStyle";
            Paragraph (strip (llm_answer
                                (List.length requests + List.length sector_list)
                                PORTFOLIO_OPTIMIZER_PROMPT)) "BodyStyle"]
      with ([Spacer 1 (snd A4 / (25#10));
             Paragraph (strip "PORTFOLIO OPTIMIZATION") "HeaderStyle";
             PageBreak; Paragraph "TECHNIQUE" "TitleStyle"]
            ++ [Paragraph (strip (llm_answer
                                    (List.length requests + List.length sector_list)
                                    PORTFOLIO_OPTIMIZER_PROMPT)) "BodyStyle"]).
    rewrite app_assoc. apply last_last.
Qed.

(** [build_final_report] sends the language model one request for each
    sector of the list, in the order of the list and built from the rows
    of that sector, and after them one request with the portfolio
    prompt. *)
Theorem build_final_report_requests (metrics_df : list metrics_row)
  (sector_list : list string) (requests : list string) :
  llm_requests
    (snd (build_final_report llm_answer to_xml strip A4 inch
            STOCK_ANALYZER_PROMPT PORTFOLIO_OPTIMIZER_PROMPT
            metrics_df sector_list requests))
  = requests
    ++ map (fun s => build_prompt to_xml STOCK_ANALYZER_PROMPT
                       (filter (fun m => String.eqb (metrics_sector m) s) metrics_df))
           sector_list
    ++ [PORTFOLIO_OPTIMIZER_PROMPT].
Proof. apply build_final_report_facts_requests. Qed.

(** [build_final_report] assembles a list of eight flowables and five more
    for each sector, whose images are the charts named after the sectors,
    in the order of the list, and whose last flowable is the model's text on
    the portfolio method; but what it passes to [doc.build] is [None], the
    value [build_portfolio_section] returned. *)
Theorem build_final_report_passes_none (metrics_df : list metrics_row)
  (sector_list : list string) (requests : list string) :
  let result := build_final_report llm_answer to_xml strip A4 inch
                  STOCK_ANALYZER_PROMPT PORTFOLIO_OPTIMIZER_PROMPT
                  metrics_df sector_list requests in
  fst result = None /\
  List.length (report_list (snd result)) = (8 + 5 * List.length sector_list)%nat /\
  image_files (report_list (snd result))
  = map (fun s => String.append s ".png") sector_list /\
  last (report_list (snd result)) PageBreak
  = Paragraph
      (strip (llm_answer (List.length requests + List.length sector_list)
                         PORTFOLIO_OPTIMIZER_PROMPT))
      "BodyStyle".
Proof. apply build_final_report_facts_story. Qed.

Lemma filter_all_true {A : Type} (f : A -> bool) (l : list A) :
  (forall x, In x l -> f x = true) -> filter f l = l.
Proof.
  induction l as [ | x l IH ]; intros E; simpl; [ reflexivity | ].
  rewrite (E x (or_introl eq_refl)). f_equal. apply IH. intros y Hy. apply E. now right.
Qed.

Lemma extract_metrics_sector_column (data_df : list security) (s : string)
  (group_col : security -> string) :
  Forall (fun m => metrics_sector m = s)
         (extract_metrics data_df (Some s) group_col).
Proof.
  unfold extract_metrics. apply Forall_map, Forall_forall. intros kg _. reflexivity.
Qed.

(** Filtering the concatenated industry metrics by a sector gives back the
    frame [extract_metrics] built for that sector. *)
Lemma sector_rows_round_trip (data_df : list security) (sectors : list string)
  (s : string) :
  NoDup sectors -> In s sectors ->
  filter (fun m => String.eqb (metrics_sector m) s)
         (flat_map (fun s' => extract_metrics data_df (Some s') industry) sectors)
  = extract_metrics data_df (Some s) industry.
Proof.
  intros Hnd. induction Hnd as [ | s' l Hn Hl IH ]; intros Hin; [ contradiction | ].
  simpl. rewrite filter_app.
  assert (forall t, t <> s ->
            filter (fun m => String.eqb (metrics_sector m) s)
                   (extract_metrics data_df (Some t) industry) = []) as Other.
  { intros t Ht. apply filter_all_false. intros m Hm.
    pose proof (extract_metrics_sector_column data_df t industry) as F.
    rewrite Forall_forall in F. rewrite (F m Hm). now apply String.eqb_neq. }
  destruct Hin as [ -> | Hin ].
  - rewrite filter_all_true.
    + assert (filter (fun m => String.eqb (metrics_sector m) s)
                (flat_map (fun s' => extract_metrics data_df (Some s') industry) l)
              = []) as ->; [ | apply app_nil_r ].
      clear IH Hl. induction l as [ | t l IHl ]; simpl; [ reflexivity | ].
      rewrite filter_app, Other, IHl; [ reflexivity | | ].
      * intros H. apply Hn. now right.
      * intros ->. apply Hn. now left.
    + intros m Hm.
      pose proof (extract_metrics_sector_column data_df s industry) as F.
      rewrite Forall_forall in F. rewrite (F m Hm). apply String.eqb_refl.
  - rewrite Other, (IH Hin); [ reflexivity | ].
    intros ->. contradiction.
Qed.

Lemma main_charts_paths (stock_data_df : list security) :
  map save_path (main_charts stock_data_df)
  = map (fun s => String.append s ".png") (unique (map sector stock_data_df)).
Proof.
  unfold main_charts.
  induction (unique (map sector stock_data_df)) as [ | s l IH ];
    [ reflexivity | ].
  cbn [flat_map extract_metrics_chart app map] in IH |- *.
  f_equal. exact IH.
Qed.

Lemma main_total_sector_metrics_some (stock_data_df : list security) :
  stock_data_df <> [] ->
  main_total_sector_metrics stock_data_df
  = Some (flat_map (fun s => extract_metrics stock_data_df (Some s) industry)
                   (unique (map sector stock_data_df))).
Proof.
  intros Hne. unfold main_total_sector_metrics, pd_concat.
  rewrite flat_map_concat_map.
  destruct stock_data_df as [ | r l ]; [ now elim Hne | reflexivity ].
Qed.

Lemma main_total_sector_metrics_none (stock_data_df : list security) :
  main_total_sector_metrics stock_data_df = None <-> stock_data_df = [].
Proof.
  split.
  - intros E. destruct stock_data_df as [ | r l ]; [ reflexivity | ].
    rewrite main_total_sector_metrics_some in E; discriminate.
  - intros ->. reflexivity.
Qed.

(** A run of [main] that reaches the report (lines 42-61: [pd.concat] and
    [portfolio_optimization] have returned): the report asks the language
    model once for each sector of the table, in the order the sectors
    first come, with the prompt built from the industry metrics of that
    sector, and once more for the portfolio method; the images the report
    refers to are the chart files the metrics loop wrote, one for each
    sector in the same order; and [doc.build] is called with [None]. *)
Theorem main_report_follows_sectors (fuel : nat) (stock_data_df : list security)
  (portfolio_amount : Z) (portfolio_sector_size : nat) (requests : list string)
  (portfolio : list alloc_row) (result : option (list flowable) * report_state) :
  main_report llm_answer to_xml strip A4 inch
    STOCK_ANALYZER_PROMPT PORTFOLIO_OPTIMIZER_PROMPT
    fuel stock_data_df portfolio_amount portfolio_sector_size requests
  = Some (portfolio, result) ->
  let sectors_list := unique (map sector stock_data_df) in
  llm_requests (snd result)
  = requests
    ++ map (fun s => build_prompt to_xml STOCK_ANALYZER_PROMPT
                       (extract_metrics stock_data_df (Some s) industry))
           sectors_list
    ++ [PORTFOLIO_OPTIMIZER_PROMPT] /\
  List.length (llm_requests (snd result))
  = (List.length requests + List.length sectors_list + 1)%nat /\
  image_files (report_list (snd result))
  = map save_path (main_charts stock_data_df) /\
  List.length (main_charts stock_data_df) = List.length sectors_list /\
  fst result = None.
Proof.
  intros E. cbv zeta. unfold main_report in E.
  destruct (main_total_sector_metrics stock_data_df) as [ M | ] eqn:EM;
    [ | discriminate ].
  destruct (fst (portfolio_optimization fuel _ stock_data_df _ _))
    as [ pf | e | ]; try discriminate.
  injection E as _ <-.
  assert (stock_data_df <> []) as Hne.
  { intros F. apply main_total_sector_metrics_none in F. congruence. }
  rewrite (main_total_sector_metrics_some _ Hne) in EM. injection EM as <-.
  assert (llm_requests
            (snd (build_final_report llm_answer to_xml strip A4 inch
                    STOCK_ANALYZER_PROMPT PORTFOLIO_OPTIMIZER_PROMPT
                    (flat_map (fun s => extract_metrics stock_data_df (Some s) industry)
                              (unique (map sector stock_data_df)))
                    (unique (map sector stock_data_df)) requests))
          = requests
            ++ map (fun s => build_prompt to_xml STOCK_ANALYZER_PROMPT
                               (extract_metrics stock_data_df (Some s) industry))
                   (unique (map sector stock_data_df))
            ++ [PORTFOLIO_OPTIMIZER_PROMPT]) as R.
  { rewrite build_final_report_facts_requests. f_equal. f_equal.
    apply map_ext_in. intros s Hs. f_equal.
    apply sector_rows_round_trip; [ apply unique_NoDup | exact Hs ]. }
  split; [ exact R | ]. split.
  { rewrite R, !length_app, length_map. simpl. lia. }
  split.
  { rewrite main_charts_paths.
    apply (build_final_report_facts_story
             (flat_map (fun s => extract_metrics stock_data_df (Some s) industry)
                       (unique (map sector stock_data_df)))). }
  split.
  { rewrite <- (length_map save_path), main_charts_paths. apply length_map. }
  apply (build_final_report_facts_story
           (flat_map (fun s => extract_metrics stock_data_df (Some s) industry)
                     (unique (map sector stock_data_df)))).
Qed.
(** ** C10 *)

(** C10. [main] never reads its [stock_data_df] argument: line 39 rebinds
    the name to the table the data source delivers, so two calls that
    differ only in that argument end in the same way, with the same
    portfolio if they return one.  As the code stands no call returns one:
    a call raises at line 54 when the delivered table is empty and at
    line 61, in [doc.build], once [portfolio_optimization] has returned. *)
Theorem main_ignores_stock_data_df (get_sp_500_info : unit -> list security)
  (requests : list string) (fuel : nat) (df1 df2 : list security)
  (portfolio_amount : Z) (portfolio_sector_size : nat) :
  main llm_answer to_xml strip A4 inch
    STOCK_ANALYZER_PROMPT PORTFOLIO_OPTIMIZER_PROMPT get_sp_500_info requests
    fuel df1 portfolio_amount portfolio_sector_size
  = main llm_answer to_xml strip A4 inch
      STOCK_ANALYZER_PROMPT PORTFOLIO_OPTIMIZER_PROMPT get_sp_500_info requests
      fuel df2 portfolio_amount portfolio_sector_size /\
  (forall portfolio,
     main llm_answer to_xml strip A4 inch
       STOCK_ANALYZER_PROMPT PORTFOLIO_OPTIMIZER_PROMPT get_sp_500_info requests
       fuel df1 portfolio_amount portfolio_sector_size
     <> Returned portfolio) /\
  (get_sp_500_info tt = [] ->
   main llm_answer to_xml strip A4 inch
     STOCK_ANALYZER_PROMPT PORTFOLIO_OPTIMIZER_PROMPT get_sp_500_info requests
     fuel df1 portfolio_amount portfolio_sector_size
   = Raised ValueError) /\
  (forall portfolio,
     get_sp_500_info tt <> [] ->
     fst (portfolio_optimization fuel
            (extract_metrics (get_sp_500_info tt) None sector)
            (get_sp_500_info tt) (inject_Z portfolio_amount)
            portfolio_sector_size) = Returned portfolio ->
     main llm_answer to_xml strip A4 inch
       STOCK_ANALYZER_PROMPT PORTFOLIO_OPTIMIZER_PROMPT get_sp_500_info requests
       fuel df1 portfolio_amount portfolio_sector_size
     = Raised TypeError).
Proof.
  split; [ reflexivity | ].
  assert (forall M,
            doc_build
              (fst (build_final_report llm_answer to_xml strip A4 inch
                      STOCK_ANALYZER_PROMPT PORTFOLIO_OPTIMIZER_PROMPT
                      M (unique (map sector (get_sp_500_info tt))) requests))
            = Some TypeError) as D.
  { intros M.
    now rewrite (proj1 (build_final_report_facts_story M
                          (unique (map sector (get_sp_500_info tt))) requests)). }
  split; [ | split ].
  - intros portfolio. unfold main.
    destruct (main_total_sector_metrics (get_sp_500_info tt)) as [ M | ];
      [ | discriminate ].
    destruct (fst (portfolio_optimization fuel _ (get_sp_500_info tt) _ _))
      as [ pf | e | ]; try discriminate.
    rewrite D. discriminate.
  - intros E. unfold main. rewrite E. reflexivity.
  - intros portfolio Hne Hp. unfold main.
    rewrite (main_total_sector_metrics_some _ Hne), Hp, D. reflexivity.
Qed.

End ReportFacts.

(** ** The two levels of metrics of main agree *)

Lemma extract_metrics_market_cap (data_df : list security)
  (sector_name : option string) (group_col : security -> string) :
  Qsum (map total_market_cap (extract_metrics data_df sector_name group_col))
  == Qsum (map marketCap
             match sector_name with
             | Some s => filter (fun r => String.eqb (sector r) s) data_df
             | None => data_df
             end).
Proof.
  unfold extract_metrics. rewrite map_map. simpl.
  rewrite <- (Qsum_flat_map marketCap snd).
  apply Qsum_map_perm, groupby_facts.
Qed.

(** Lines 43 and 46-54 of [main]: [pd.concat] fails exactly on an empty
    table; the market cap a sector has in the sector-level metrics is the
    sum of the market caps of its industries in the industry-level
    metrics; and when [pd.concat] returns, the two frames have the same
    grand total. *)
Theorem sector_totals_match_industry_totals (stock_data_df : list security) :
  (main_total_sector_metrics stock_data_df = None <-> stock_data_df = []) /\
  Forall (fun m =>
            total_market_cap m ==
            Qsum (map total_market_cap
                    (extract_metrics stock_data_df (Some (group_key m)) industry)))
         (extract_metrics stock_data_df None sector) /\
  (forall total_sector_metrics,
     main_total_sector_metrics stock_data_df = Some total_sector_metrics ->
     Qsum (map total_market_cap (extract_metrics stock_data_df None sector))
     == Qsum (map total_market_cap total_sector_metrics)).
Proof.
  split; [ apply main_total_sector_metrics_none | ]. split.
  - apply Forall_forall. intros m Hm.
    rewrite extract_metrics_market_cap.
    unfold extract_metrics in Hm. apply in_map_iff in Hm.
    destruct Hm as ([k g] & <- & Hkg). simpl.
    destruct (groupby_In _ _ _ _ Hkg) as (_ & ->).
    apply Qsum_map_ext. intros; reflexivity.
  - intros M E.
    assert (stock_data_df <> []) as Hne.
    { intros F. apply main_total_sector_metrics_none in F. congruence. }
    rewrite (main_total_sector_metrics_some _ Hne) in E. injection E as <-.
    rewrite extract_metrics_market_cap. rewrite Qsum_flat_map.
    rewrite (Qsum_map_ext _ _ _
               (fun s _ => extract_metrics_market_cap stock_data_df (Some s) industry)).
    rewrite <- (Qsum_flat_map marketCap
                  (fun s => filter (fun r => String.eqb (sector r) s) stock_data_df)).
    symmetry. apply Qsum_map_perm, partition_by_keys.
    + apply unique_NoDup.
    + intros r Hr. apply unique_In. now apply in_map.
Qed.

Lemma main_report_follows_sectors_witness :
  exists portfolio result,
    main_report example_llm example_to_xml example_strip
      (595, 842) 72 "prompt 1" "prompt 2" 1000 universe 1000 10 []
    = Some (portfolio, result) /\
    llm_requests (snd result)
    = ["<data/>" ++ newline ++ newline ++ "prompt 1";
       "<data/>" ++ newline ++ newline ++ "prompt 1";
       "prompt 2"]%string /\
    image_files (report_list (snd result)) = ["Tech.png"; "Energy.png"] /\
    fst result = None.
Proof.
  destruct (main_report example_llm example_to_xml example_strip
              (595, 842) 72 "prompt 1" "prompt 2" 1000 universe 1000 10 [])
    as [ [portfolio result] | ] eqn:E; [ | vm_compute in E; discriminate ].
  exists portfolio, result. split; [ reflexivity | ].
  destruct (main_report_follows_sectors example_llm example_to_xml example_strip
              (595, 842) 72 "prompt 1" "prompt 2" 1000 universe 1000 10 []
              portfolio result E)
    as (R & _ & I & _ & N).
  split; [ exact R | ]. split; [ exact I | exact N ].
Defined.

(** One run of [main] on the small universe, and one on an empty table. *)
Example main_run :
  main example_llm example_to_xml example_strip (595, 842) 72
    "prompt 1" "prompt 2" (fun _ => universe) [] 10 [] 1000 10
  = Raised TypeError /\
  main example_llm example_to_xml example_strip (595, 842) 72
    "prompt 1" "prompt 2" (fun _ => []) [] 10 universe 1000 10
  = Raised ValueError.
Proof. split; vm_compute; reflexivity. Qed.
